(** * Whispering: split-audio dialog store and transcription orchestration

    A shallow embedding of
    [apps/whispering/src/lib/stores/split-audio-dialog.svelte.ts] (the
    reactive store behind the "Large audio detected" dialog) and of the
    transcription query module that follows it in the same source file
    ([transcribeRecording], [transcribeBlob], [transcribeSplitAudio],
    [transcribeWithProvider], [calculateChunkSeconds], [formatSplitTag],
    [formatTimestamp]).

    Conventions of the model.
    - A JavaScript [number] is an exact rational or one of the three
      non-finite values.  The code computes in binary64; the two readings
      agree as long as every intermediate value is a binary64 number, which
      is the case for whole numbers below [2^53] in size and for the
      quotients whose floor is taken of them.  The theorems that rest on an
      arithmetic fact state the range for which they are meant, and
      [Binary64] evaluates [calculateChunkSeconds] in binary64 itself, to
      show an input outside that range.  Overflow and the sign of zero are
      outside the model.
    - A JavaScript string is a Rocq [string] holding its UTF-8 bytes.
    - [async] functions are programs over the calls they make to the
      injected services ([Prog]); a handler gives the services' answers
      while threading the state of the outside world. *)

From Stdlib Require Import ZArith NArith QArith Qround Qminmax Bool List Lia Lqa.
From Stdlib Require Import String Ascii DecimalString.
From Stdlib Require PrimFloat FloatOps SpecFloat.
Import ListNotations.

Local Open Scope string_scope.

(* ================================================================== *)
(** ** JavaScript numbers *)
(* ================================================================== *)

Module JsNumber.

Inductive number : Type :=
| Fin (q : Q)
| Infinity
| NegInfinity
| NaN.

Definition num (z : Z) : number := Fin (inject_Z z).

(** Three-way choice on the sign of a rational. *)
Definition by_sign {A : Type} (q : Q) (neg zero pos : A) : A :=
  match Qnum q with
  | Z0 => zero
  | Zpos _ => pos
  | Zneg _ => neg
  end.

(** [a - b], exact: without the rounding of binary64. *)
Definition sub (a b : number) : number :=
  match a, b with
  | NaN, _ | _, NaN => NaN
  | Fin x, Fin y => Fin (x - y)
  | Fin _, Infinity => NegInfinity
  | Fin _, NegInfinity => Infinity
  | Infinity, Infinity => NaN
  | Infinity, _ => Infinity
  | NegInfinity, NegInfinity => NaN
  | NegInfinity, _ => NegInfinity
  end.

(** [a * b], exact: without the rounding or the overflow of binary64. *)
Definition mul (a b : number) : number :=
  match a, b with
  | NaN, _ | _, NaN => NaN
  | Fin x, Fin y => Fin (x * y)
  | Fin x, Infinity | Infinity, Fin x => by_sign x NegInfinity NaN Infinity
  | Fin x, NegInfinity | NegInfinity, Fin x => by_sign x Infinity NaN NegInfinity
  | Infinity, Infinity | NegInfinity, NegInfinity => Infinity
  | Infinity, NegInfinity | NegInfinity, Infinity => NegInfinity
  end.

(** [a / b], exact: without the rounding of binary64; a zero divisor
    counts as [+0]. *)
Definition div (a b : number) : number :=
  match a, b with
  | NaN, _ | _, NaN => NaN
  | Fin x, Fin y =>
      if Qeq_bool y 0 then by_sign x NegInfinity NaN Infinity else Fin (x / y)
  | Fin _, _ => Fin 0
  | Infinity, Fin y => by_sign y NegInfinity Infinity Infinity
  | NegInfinity, Fin y => by_sign y Infinity NegInfinity NegInfinity
  | _, _ => NaN
  end.

(** Rounding towards zero. *)
Definition Qtrunc (q : Q) : Z :=
  by_sign q (Qceiling q) 0%Z (Qfloor q).

(** [a % b]: the remainder has the sign of the dividend. *)
Definition rem (a b : number) : number :=
  match a, b with
  | NaN, _ | _, NaN => NaN
  | Fin x, Fin y =>
      if Qeq_bool y 0 then NaN else Fin (x - y * inject_Z (Qtrunc (x / y)))
  | Fin x, _ => Fin x
  | _, _ => NaN
  end.

(** [a > b] *)
Definition gt (a b : number) : bool :=
  match a, b with
  | NaN, _ | _, NaN => false
  | Fin x, Fin y => negb (Qle_bool x y)
  | Infinity, Infinity => false
  | Infinity, _ => true
  | _, Infinity => false
  | NegInfinity, _ => false
  | _, NegInfinity => true
  end.

(** [Math.floor] *)
Definition Math_floor (a : number) : number :=
  match a with
  | Fin x => num (Qfloor x)
  | _ => a
  end.

(** [Math.round]: halves go up. *)
Definition Math_round (a : number) : number :=
  match a with
  | Fin x => num (Qfloor (x + (1 # 2)))
  | _ => a
  end.

(** [Math.max] of two arguments. *)
Definition Math_max (a b : number) : number :=
  match a, b with
  | NaN, _ | _, NaN => NaN
  | _, _ => if gt b a then b else a
  end.

(** Decimal digits of an integer, as [String] prints them. *)
Definition Z_toString (z : Z) : string :=
  NilZero.string_of_int (Z.to_int z).

(** [k] decimal digits of the fraction [r / d], for [0 <= r < d]. *)
Fixpoint frac_digits (k : nat) (r d : Z) : string :=
  match k with
  | O => ""
  | S k' =>
      if (r =? 0)%Z then ""
      else Z_toString (10 * r / d) ++ frac_digits k' ((10 * r) mod d) d
  end.

(** [String(a)].  Exact on [NaN], the infinities and the whole numbers
    below [2^53] in size, the only values the functions below convert in
    the range the theorems are stated for.  A whole number prints here with
    all its digits, where JavaScript switches to the exponent form from
    [10^21] on.  For a value with a fractional part JavaScript prints the
    shortest digits that read back as the same binary64; here it prints as
    its decimal expansion cut after 17 fractional digits. *)
Definition String_ (a : number) : string :=
  match a with
  | NaN => "NaN"
  | Infinity => "Infinity"
  | NegInfinity => "-Infinity"
  | Fin x =>
      let z := Qfloor x in
      if Qeq_bool x (inject_Z z) then Z_toString z
      else
        let t := Qtrunc x in
        let r := (Z.abs (Qnum x) mod Zpos (Qden x))%Z in
        (if (Qnum x <? 0)%Z then "-" else "") ++ Z_toString (Z.abs t)
          ++ "." ++ frac_digits 17 r (Zpos (Qden x))
  end.

End JsNumber.
Import JsNumber.

(* ================================================================== *)
(** ** JavaScript strings *)
(* ================================================================== *)

Module JsString.

Definition LF : string := String (ascii_of_nat 10) EmptyString.

Fixpoint repeat_string (s : string) (k : nat) : string :=
  match k with
  | O => ""
  | S k' => s ++ repeat_string s k'
  end.

(** [s.padStart(targetLength, padString)] *)
Definition padStart (targetLength : nat) (padString : string) (s : string)
  : string :=
  let len := String.length s in
  if (targetLength <=? len)%nat then s
  else if (String.length padString =? 0)%nat then s
  else
    let missing := (targetLength - len)%nat in
    substring 0 missing (repeat_string padString missing) ++ s.

(** [parts.join(sep)] *)
Definition join (sep : string) (parts : list string) : string :=
  String.concat sep parts.

(** White space and line terminators of ECMAScript, as UTF-8 byte
    sequences: TAB, LF, VT, FF, CR, SP, U+00A0, U+1680, U+2000..U+200A,
    U+2028, U+2029, U+202F, U+205F, U+3000, U+FEFF. *)
Definition ws_len (bytes : list nat) : nat :=
  match bytes with
  | 9 :: _ | 10 :: _ | 11 :: _ | 12 :: _ | 13 :: _ | 32 :: _ => 1
  | 194 :: 160 :: _ => 2
  | 225 :: 154 :: 128 :: _ => 3
  | 226 :: 128 :: c :: _ =>
      if ((128 <=? c) && (c <=? 138) || (c =? 168) || (c =? 169) || (c =? 175))%nat
      then 3 else 0
  | 226 :: 129 :: 159 :: _ => 3
  | 227 :: 128 :: 128 :: _ => 3
  | 239 :: 187 :: 191 :: _ => 3
  | _ => 0
  end%nat.

(** The same sequences read from the end of the string backwards. *)
Definition ws_len_rev (bytes : list nat) : nat :=
  match bytes with
  | c1 :: rest1 =>
      if (ws_len [c1] =? 1)%nat then 1%nat
      else match rest1 with
           | c2 :: rest2 =>
               if (ws_len [c2; c1] =? 2)%nat then 2%nat
               else match rest2 with
                    | c3 :: _ => if (ws_len [c3; c2; c1] =? 3)%nat then 3%nat else 0%nat
                    | [] => 0%nat
                    end
           | [] => 0%nat
           end
  | [] => 0%nat
  end.

Fixpoint strip (measure : list nat -> nat) (fuel : nat) (bytes : list nat)
  : list nat :=
  match fuel with
  | O => bytes
  | S fuel' =>
      match measure bytes with
      | O => bytes
      | k => strip measure fuel' (skipn k bytes)
      end
  end.

Definition bytes_of (s : string) : list nat :=
  map nat_of_ascii (list_ascii_of_string s).

Definition of_bytes (l : list nat) : string :=
  string_of_list_ascii (map ascii_of_nat l).

(** [s.trim()] *)
Definition trim (s : string) : string :=
  let b := bytes_of s in
  let b1 := strip ws_len (List.length b) b in
  let r := rev b1 in
  of_bytes (rev (strip ws_len_rev (List.length r) r)).

End JsString.
Import JsString.

(* ================================================================== *)
(** ** Options of the split dialog; chunk size and split tags *)
(* ================================================================== *)

Record SplitAudioDialogOptions : Type := {
  maxMb : number;
  bitrateKbps : number;
  minChunkSec : number;
  safetyMb : number;
  addSplitTags : bool
}.

Definition MAX_TRANSCRIPTION_FILE_MB : number := num 25.
Definition MB_BYTES : number := Eval cbv in mul (num 1024) (num 1024).

Definition calculateChunkSeconds (options : SplitAudioDialogOptions) : number :=
  let targetBytes := mul (sub (maxMb options) (safetyMb options)) MB_BYTES in
  let bytesPerSecond := div (mul (bitrateKbps options) (num 1000)) (num 8) in
  Math_max (minChunkSec options) (Math_floor (div targetBytes bytesPerSecond)).

Definition formatTimestamp (totalSeconds : number) : string :=
  let clampedSeconds := Math_max (num 0) (Math_floor totalSeconds) in
  let hours := Math_floor (div clampedSeconds (num 3600)) in
  let minutes := Math_floor (div (rem clampedSeconds (num 3600)) (num 60)) in
  let seconds := rem clampedSeconds (num 60) in
  let hourPrefix :=
    if gt hours (num 0) then padStart 2 "0" (String_ hours) ++ ":" else "" in
  hourPrefix ++ padStart 2 "0" (String_ minutes) ++ ":"
    ++ padStart 2 "0" (String_ seconds).

Definition formatSplitTag (index startSeconds endSeconds : number) : string :=
  "[Chunk " ++ String_ index ++ " • " ++ formatTimestamp startSeconds
    ++ " – " ++ formatTimestamp endSeconds ++ "]".

(* ================================================================== *)
(** ** The chunk duration in binary64 *)
(* ================================================================== *)

(** [calculateChunkSeconds] once more, over the numbers that JavaScript
    computes with: the primitive floats of the kernel are IEEE 754 binary64
    with rounding to nearest, ties to even. *)
Module Binary64.
Import PrimFloat.
#[local] Set Warnings "-inexact-float".
Local Open Scope float_scope.

Record Options : Type := {
  maxMb : float;
  bitrateKbps : float;
  minChunkSec : float;
  safetyMb : float
}.

(** From [2^52] on every binary64 number is whole. *)
Definition two52 : float := 4503599627370496.

(** [Math.floor]: below [2^52], adding and taking away [2^52] rounds the
    size of [x] to a whole number, which is then moved to the floor. *)
Definition Math_floor (x : float) : float :=
  if is_nan x then x
  else if x =? 0 then x
  else if two52 <=? abs x then x
  else
    let nearest := (abs x + two52) - two52 in
    let below := if abs x <? nearest then nearest - 1 else nearest in
    if 0 <? x then below
    else if below =? abs x then - below
    else - (below + 1).

(** [Math.max] of two arguments; of the two zeros, [+0] is the larger. *)
Definition Math_max (a b : float) : float :=
  if is_nan a then nan
  else if is_nan b then nan
  else if a <? b then b
  else if b <? a then a
  else if a =? 0 then a + b
  else a.

Definition MB_BYTES : float := 1024 * 1024.

Definition calculateChunkSeconds (options : Options) : float :=
  let targetBytes := (maxMb options - safetyMb options) * MB_BYTES in
  let bytesPerSecond := (bitrateKbps options * 1000) / 8 in
  Math_max (minChunkSec options) (Math_floor (targetBytes / bytesPerSecond)).

(** The value of a binary64 number, exactly. *)
Definition exact (x : float) : number :=
  match FloatOps.Prim2SF x with
  | SpecFloat.S754_zero _ => Fin 0%Q
  | SpecFloat.S754_infinity false => Infinity
  | SpecFloat.S754_infinity true => NegInfinity
  | SpecFloat.S754_nan => NaN
  | SpecFloat.S754_finite negative mantissa exponent =>
      Fin (Qred ((if negative then - (1) else 1)%Q
                 * inject_Z (Zpos mantissa) * (2 ^ exponent)%Q)%Q)
  end.

(** The options as the exact model reads them. *)
Definition read (o : Options) (tags : bool) : SplitAudioDialogOptions :=
  Build_SplitAudioDialogOptions (exact (maxMb o)) (exact (bitrateKbps o))
    (exact (minChunkSec o)) (exact (safetyMb o)) tags.

(** The defaults of the settings, and two records whose sizes are not
    binary64 numbers: each is read as the nearest one. *)
Definition defaults : Options :=
  {| maxMb := 25; bitrateKbps := 128; minChunkSec := 10; safetyMb := 0.5 |}.

Definition rounds_up : Options :=
  {| maxMb := 62.8; bitrateKbps := 128; minChunkSec := 10; safetyMb := 0.3 |}.

Definition rounds_down : Options :=
  {| maxMb := 64.1; bitrateKbps := 128; minChunkSec := 10; safetyMb := 1.6 |}.

(** The binary64 number [z * 2^e], for [z] below [2^53] in size. *)
Definition dyadic (z e : Z) : float :=
  match z with
  | Z0 => 0
  | Zpos p => FloatOps.SF2Prim (SpecFloat.S754_finite false p e)
  | Zneg p => FloatOps.SF2Prim (SpecFloat.S754_finite true p e)
  end.

(** Options with [maxMb = za * 2^-20], [safetyMb = zs * 2^-20] and whole
    [bitrateKbps] and [minChunkSec]. *)
Definition on_grid (za zb zm zs : Z) : Options :=
  {| maxMb := dyadic za (-20); bitrateKbps := dyadic zb 0;
     minChunkSec := dyadic zm 0; safetyMb := dyadic zs (-20) |}.

End Binary64.

(* ================================================================== *)
(** ** Values exchanged with the services *)
(* ================================================================== *)

(** A [Blob]: an identity and a size in bytes. *)
Record Blob : Type := { blob_id : nat; size : N }.

Definition size_of (b : Blob) : number := num (Z.of_N (size b)).

(** [Result<T, E>] of wellcrafted: exactly one of [data] and [error]. *)
Inductive Result (T E : Type) : Type :=
| Ok (data : T)
| Err (error : E).
Arguments Ok {T E} data.
Arguments Err {T E} error.

(** Errors of the services: only [message] is read here. *)
Record ServiceError : Type := { message : string }.

(** A [WhisperingError], as far as this module builds and reads one: the
    fields of the object literals passed to [WhisperingErr], an absent
    field being [None]. *)
Record WhisperingError : Type := {
  title : string;
  description : option string;
  serviceError : option ServiceError
}.

(** Modelled from the spec: [WhisperingErr] is defined in [$lib/result],
    which is not among the sources.  Every use of it here is returned as
    the failing [Result] of a step that reports and aborts, so it is taken
    to wrap its argument as the [error] of a [Result]. *)
Definition WhisperingErr {T : Type} (e : WhisperingError)
  : Result T WhisperingError := Err e.

Inductive TranscriptionStatus : Type :=
| UNPROCESSED | TRANSCRIBING | DONE | FAILED.

(** A [Recording] ([$lib/services/isomorphic/db]): the fields this module
    reads or writes.  The spread [{ ...recording, f: v }] keeps the others. *)
Record Recording : Type := {
  id : string;
  transcribedText : string;
  transcriptionStatus : TranscriptionStatus
}.

Definition with_status (r : Recording) (s : TranscriptionStatus) : Recording :=
  {| id := id r; transcribedText := transcribedText r;
     transcriptionStatus := s |}.

Definition with_text_and_status (r : Recording) (t : string)
    (s : TranscriptionStatus) : Recording :=
  {| id := id r; transcribedText := t; transcriptionStatus := s |}.

(** The argument of [notify.warning] and [notify.info]; [action] holds the
    error of a [more-details] action. *)
Record Notification : Type := {
  n_title : string;
  n_description : string;
  n_action : option ServiceError
}.

(** The entries of [settings.value] that the module reads, named by the
    last part of their key.  The type [Settings] is declared in
    [$lib/settings]; the entries handed on to the providers untouched are
    kept as strings. *)
Record Settings : Type := {
  selectedTranscriptionService : string;
  compressionEnabled : bool;
  compressionOptions : string;
  splitMaxMB : number;
  splitBitrateKbps : number;
  splitMinChunkSec : number;
  splitSafetyMB : number;
  splitTaggingEnabled : bool;
  outputLanguage : string;
  prompt : string;
  temperature : string;
  apiKeys_openai : string;
  apiKeys_groq : string;
  apiKeys_elevenlabs : string;
  apiKeys_deepgram : string;
  apiKeys_mistral : string;
  apiEndpoints_openai : string;
  apiEndpoints_groq : string;
  openai_model : string;
  groq_model : string;
  elevenlabs_model : string;
  deepgram_model : string;
  mistral_model : string;
  speaches_modelId : string;
  speaches_baseUrl : string;
  whispercpp_modelPath : string;
  parakeet_modelPath : string;
  moonshine_modelPath : string
}.

(** The members of [services.transcriptions]. *)
Inductive Provider : Type :=
| openai | groq | speaches | elevenlabs | deepgram | mistral
| whispercpp | parakeet | moonshine.

(** An options object literal: keys with values, [None] for [undefined]. *)
Definition ProviderOptions : Type := list (string * option string).

(** [s || undefined] *)
Definition or_undefined (s : string) : option string :=
  match s with
  | EmptyString => None
  | _ => Some s
  end.

(** The four numeric fields handed to the split service. *)
Record SplitParams : Type := {
  sp_maxMb : number;
  sp_bitrateKbps : number;
  sp_minChunkSec : number;
  sp_safetyMb : number
}.

Record SplitAudioDialogRequest : Type := {
  req_blob : Blob;
  req_blobSizeMb : number;
  req_options : SplitAudioDialogOptions
}.

Definition SplitAudioDialogResult : Type := option SplitAudioDialogOptions.

Inductive AnalyticsEvent : Type :=
| transcription_requested (provider : string)
| compression_failed (provider error_message : string)
| compression_completed (provider : string)
    (original_size compressed_size compression_ratio : number)
| transcription_failed (provider error_title : string)
    (error_description : option string)
| transcription_completed (provider : string) (duration : Z).

(* ================================================================== *)
(** ** Programs over the injected services *)
(* ================================================================== *)

(** One constructor per call that leaves the module; the index is the type
    of the answer.  [ReadSettings] reads [settings.value], once per stretch
    of code that runs without an [await]. *)
Inductive Eff : Type -> Type :=
| ReadSettings : Eff Settings
| DateNow : Eff Z
| LogEvent (e : AnalyticsEvent) : Eff unit
| NotifyWarning (n : Notification) : Eff unit
| NotifyInfo (n : Notification) : Eff unit
| GetAudioBlob (recordingId : string) : Eff (Result Blob ServiceError)
| DbRecordingsUpdate (r : Recording) : Eff (Result unit ServiceError)
| CompressAudioBlob (b : Blob) (opts : string) : Eff (Result Blob ServiceError)
| SplitAudioBlob (b : Blob) (p : SplitParams)
    : Eff (Result (list (option Blob)) ServiceError)
| DialogOpen (request : SplitAudioDialogRequest) : Eff SplitAudioDialogResult
| Transcribe (p : Provider) (audio : Blob) (opts : ProviderOptions)
    : Eff (Result string WhisperingError).

Inductive Prog (A : Type) : Type :=
| Ret (a : A)
| Vis (X : Type) (e : Eff X) (k : X -> Prog A).
Arguments Ret {A} a.
Arguments Vis {A X} e k.

Fixpoint bind {A B : Type} (p : Prog A) (f : A -> Prog B) : Prog B :=
  match p with
  | Ret a => f a
  | Vis e k => Vis e (fun x => bind (k x) f)
  end.

Definition call {X : Type} (e : Eff X) : Prog X := Vis e Ret.

Declare Scope prog_scope.
Delimit Scope prog_scope with prog.
Notation "x <- c1 ;; c2" := (bind c1 (fun x => c2))
  (at level 61, c1 at next level, right associativity) : prog_scope.
Notation "c1 ;; c2" := (bind c1 (fun _ => c2))
  (at level 61, right associativity) : prog_scope.
Local Open Scope prog_scope.

(** A call that was made, with the answer it got. *)
Inductive Event : Type :=
| Called (X : Type) (e : Eff X) (x : X).
Arguments Called {X} e x.

(** The outside world: a state and the answer to every call. *)
Definition Handler (W : Type) : Type := forall X : Type, Eff X -> W -> X * W.

(** Running a program: its value, the world it leaves, and the calls it
    made, in order. *)
Fixpoint run {W A : Type} (h : Handler W) (p : Prog A) (w : W)
  : A * W * list Event :=
  match p with
  | Ret a => (a, w, [])
  | Vis e k =>
      let xw := h _ e w in
      let o := run h (k (fst xw)) (snd xw) in
      (fst (fst o), snd (fst o), Called e (fst xw) :: snd o)
  end.

Definition result_of {W A : Type} (o : A * W * list Event) : A := fst (fst o).
Definition world_of {W A : Type} (o : A * W * list Event) : W := snd (fst o).
Definition trace_of {W A : Type} (o : A * W * list Event) : list Event := snd o.

(* ================================================================== *)
(** ** The transcription module *)
(* ================================================================== *)

Definition opt (key value : string) : string * option string :=
  (key, Some value).

(** [transcribeWithProvider]: the [switch] on the selected service. *)
Definition transcribeWithProvider (audioToTranscribe : Blob)
    (selectedService : string) : Prog (Result string WhisperingError) :=
  if selectedService =? "OpenAI" then
    s <- call ReadSettings ;;
    call (Transcribe openai audioToTranscribe
            [opt "outputLanguage" (outputLanguage s); opt "prompt" (prompt s);
             opt "temperature" (temperature s); opt "apiKey" (apiKeys_openai s);
             opt "modelName" (openai_model s);
             ("baseURL", or_undefined (apiEndpoints_openai s))])
  else if selectedService =? "Groq" then
    s <- call ReadSettings ;;
    call (Transcribe groq audioToTranscribe
            [opt "outputLanguage" (outputLanguage s); opt "prompt" (prompt s);
             opt "temperature" (temperature s); opt "apiKey" (apiKeys_groq s);
             opt "modelName" (groq_model s);
             ("baseURL", or_undefined (apiEndpoints_groq s))])
  else if selectedService =? "speaches" then
    s <- call ReadSettings ;;
    call (Transcribe speaches audioToTranscribe
            [opt "outputLanguage" (outputLanguage s); opt "prompt" (prompt s);
             opt "temperature" (temperature s);
             opt "modelId" (speaches_modelId s);
             opt "baseUrl" (speaches_baseUrl s)])
  else if selectedService =? "ElevenLabs" then
    s <- call ReadSettings ;;
    call (Transcribe elevenlabs audioToTranscribe
            [opt "outputLanguage" (outputLanguage s); opt "prompt" (prompt s);
             opt "temperature" (temperature s);
             opt "apiKey" (apiKeys_elevenlabs s);
             opt "modelName" (elevenlabs_model s)])
  else if selectedService =? "Deepgram" then
    s <- call ReadSettings ;;
    call (Transcribe deepgram audioToTranscribe
            [opt "outputLanguage" (outputLanguage s); opt "prompt" (prompt s);
             opt "temperature" (temperature s);
             opt "apiKey" (apiKeys_deepgram s);
             opt "modelName" (deepgram_model s)])
  else if selectedService =? "Mistral" then
    s <- call ReadSettings ;;
    call (Transcribe mistral audioToTranscribe
            [opt "outputLanguage" (outputLanguage s); opt "prompt" (prompt s);
             opt "temperature" (temperature s);
             opt "apiKey" (apiKeys_mistral s);
             opt "modelName" (mistral_model s)])
  else if selectedService =? "whispercpp" then
    s <- call ReadSettings ;;
    call (Transcribe whispercpp audioToTranscribe
            [opt "outputLanguage" (outputLanguage s);
             opt "modelPath" (whispercpp_modelPath s); opt "prompt" (prompt s)])
  else if selectedService =? "parakeet" then
    s <- call ReadSettings ;;
    call (Transcribe parakeet audioToTranscribe
            [opt "modelPath" (parakeet_modelPath s)])
  else if selectedService =? "moonshine" then
    s <- call ReadSettings ;;
    call (Transcribe moonshine audioToTranscribe
            [opt "modelPath" (moonshine_modelPath s)])
  else
    Ret (WhisperingErr
           {| title := "⚠️ No transcription service selected";
              description :=
                Some "Please select a transcription service in settings.";
              serviceError := None |}).

(** The body of the [for] loop of [transcribeSplitAudio], from position
    [index] on; [merged] is the array built so far.  An entry that is not a
    blob is skipped, and still counts as a position. *)
Fixpoint transcribeChunks (options : SplitAudioDialogOptions)
    (selectedService : string) (chunkSeconds : number)
    (splitBlobs : list (option Blob)) (index : Z) (merged : list string)
  : Prog (Result string WhisperingError) :=
  match splitBlobs with
  | [] => Ret (Ok (join (LF ++ LF) merged))
  | None :: rest =>
      transcribeChunks options selectedService chunkSeconds rest
        (index + 1)%Z merged
  | Some chunk :: rest =>
      r <- transcribeWithProvider chunk selectedService ;;
      match r with
      | Err chunkError => Ret (Err chunkError)
      | Ok text =>
          let merged :=
            if addSplitTags options then
              let start := mul (num index) chunkSeconds in
              let end_ := mul (num (index + 1)) chunkSeconds in
              (merged ++ [formatSplitTag (num (index + 1)) start end_])%list
            else merged in
          transcribeChunks options selectedService chunkSeconds rest
            (index + 1)%Z (merged ++ [trim text])%list
      end
  end.

Definition transcribeSplitAudio (blob : Blob)
    (options : SplitAudioDialogOptions) (selectedService : string)
  : Prog (Result string WhisperingError) :=
  r <- call (SplitAudioBlob blob
               {| sp_maxMb := maxMb options;
                  sp_bitrateKbps := bitrateKbps options;
                  sp_minChunkSec := minChunkSec options;
                  sp_safetyMb := safetyMb options |}) ;;
  match r with
  | Err splitError =>
      Ret (WhisperingErr
             {| title := "Audio split failed";
                description := None;
                serviceError := Some splitError |})
  | Ok splitBlobs =>
      let chunkSeconds := calculateChunkSeconds options in
      transcribeChunks options selectedService chunkSeconds splitBlobs 0 []
  end.

(** The compression step of [transcribeBlob]: the value of
    [audioToTranscribe] after it. *)
Definition compressStep (s : Settings) (selectedService : string) (blob : Blob)
  : Prog Blob :=
  if compressionEnabled s then
    r <- call (CompressAudioBlob blob (compressionOptions s)) ;;
    match r with
    | Err compressionError =>
        call (NotifyWarning
                {| n_title := "Audio compression failed";
                   n_description :=
                     message compressionError
                       ++ ". Using original audio for transcription.";
                   n_action := None |}) ;;
        call (LogEvent
                (compression_failed selectedService
                   (message compressionError))) ;;
        Ret blob
    | Ok compressedBlob =>
        let compressionRatio :=
          Math_round
            (mul (sub (num 1) (div (size_of compressedBlob) (size_of blob)))
               (num 100)) in
        call (NotifyInfo
                {| n_title := "Audio compressed";
                   n_description :=
                     "Reduced file size by " ++ String_ compressionRatio ++ "%";
                   n_action := None |}) ;;
        call (LogEvent
                (compression_completed selectedService (size_of blob)
                   (size_of compressedBlob) compressionRatio)) ;;
        Ret compressedBlob
    end
  else Ret blob.

(** The branch of [transcribeBlob] on [requiresSplit]: the value of
    [transcriptionResult]. *)
Definition routeTranscription (selectedService : string)
    (blob audioToTranscribe : Blob) : Prog (Result string WhisperingError) :=
  let requiresSplit :=
    gt (size_of blob) (mul MAX_TRANSCRIPTION_FILE_MB MB_BYTES) in
  if requiresSplit then
    s <- call ReadSettings ;;
    splitOptions <-
      call (DialogOpen
              {| req_blob := blob;
                 req_blobSizeMb := div (size_of blob) MB_BYTES;
                 req_options :=
                   {| maxMb := splitMaxMB s;
                      bitrateKbps := splitBitrateKbps s;
                      minChunkSec := splitMinChunkSec s;
                      safetyMb := splitSafetyMB s;
                      addSplitTags := splitTaggingEnabled s |} |}) ;;
    match splitOptions with
    | None =>
        Ret (WhisperingErr
               {| title := "Split canceled";
                  description :=
                    Some "Transcription was canceled because the audio file exceeds 25MB.";
                  serviceError := None |})
    | Some splitOptions =>
        transcribeSplitAudio blob splitOptions selectedService
    end
  else transcribeWithProvider audioToTranscribe selectedService.

(** The analytics event that closes [transcribeBlob]. *)
Definition logResult (selectedService : string) (startTime : Z)
    (transcriptionResult : Result string WhisperingError) : Prog unit :=
  now <- call DateNow ;;
  let duration := (now - startTime)%Z in
  match transcriptionResult with
  | Err error =>
      call (LogEvent
              (transcription_failed selectedService (title error)
                 (description error)))
  | Ok _ =>
      call (LogEvent (transcription_completed selectedService duration))
  end.

(** The opening of [transcribeBlob]: the selected service is read, the
    clock is read, the request is logged. *)
Definition announce : Prog (Settings * Z) :=
  s <- call ReadSettings ;;
  let selectedService := selectedTranscriptionService s in
  startTime <- call DateNow ;;
  call (LogEvent (transcription_requested selectedService)) ;;
  Ret (s, startTime).

Definition transcribeBlob (blob : Blob) : Prog (Result string WhisperingError) :=
  st <- announce ;;
  let s := fst st in
  let startTime := snd st in
  let selectedService := selectedTranscriptionService s in
  audioToTranscribe <- compressStep s selectedService blob ;;
  transcriptionResult <-
    routeTranscription selectedService blob audioToTranscribe ;;
  logResult selectedService startTime transcriptionResult ;;
  Ret transcriptionResult.

(** [if (error) notify.warning(...)] after a database update. *)
Definition warnIfFailed (r : Result unit ServiceError) (t d : string)
  : Prog unit :=
  match r with
  | Err e =>
      call (NotifyWarning
              {| n_title := t; n_description := d; n_action := Some e |})
  | Ok _ => Ret tt
  end.

(** The [mutationFn] of [transcription.transcribeRecording]. *)
Definition transcribeRecording (recording : Recording)
  : Prog (Result string WhisperingError) :=
  r <- call (GetAudioBlob (id recording)) ;;
  match r with
  | Err getAudioBlobError =>
      Ret (WhisperingErr
             {| title := "⚠️ Failed to fetch audio";
                description :=
                  Some ("Unable to load audio for recording: "
                          ++ message getAudioBlobError);
                serviceError := None |})
  | Ok audioBlob =>
      u <- call (DbRecordingsUpdate (with_status recording TRANSCRIBING)) ;;
      warnIfFailed u
        "⚠️ Unable to set recording transcription status to transcribing"
        "Continuing with the transcription process..." ;;
      t <- transcribeBlob audioBlob ;;
      match t with
      | Err transcribeError =>
          u <- call (DbRecordingsUpdate (with_status recording FAILED)) ;;
          warnIfFailed u
            "⚠️ Unable to update recording after transcription"
            "Transcription failed but unable to update recording's transcription status in database" ;;
          Ret (Err transcribeError)
      | Ok transcribedText =>
          u <- call (DbRecordingsUpdate
                       (with_text_and_status recording transcribedText DONE)) ;;
          warnIfFailed u
            "⚠️ Unable to update recording after transcription"
            "Transcription completed but unable to update recording's transcribed text and status in database" ;;
          Ret (Ok transcribedText)
      end
  end.

(** The callback that [transcription.transcribeRecordings] maps over its
    recordings: the work done for one of them.  ([Promise.all] runs these
    callbacks interleaved; the interleaving is not modelled.) *)
Definition transcribeRecordings_each (recording : Recording)
  : Prog (Result string WhisperingError) :=
  r <- call (GetAudioBlob (id recording)) ;;
  match r with
  | Err getAudioBlobError =>
      Ret (WhisperingErr
             {| title := "⚠️ Failed to fetch audio";
                description :=
                  Some ("Unable to load audio for recording: "
                          ++ message getAudioBlobError);
                serviceError := None |})
  | Ok audioBlob => transcribeBlob audioBlob
  end.

(* ================================================================== *)
(** ** The store behind the split dialog *)
(* ================================================================== *)

Module SplitAudioDialog.

(** A promise made by [open] is named by its rank of creation. *)
Definition PromiseId : Type := nat.

(** The five variables closed over by [createSplitAudioDialog];
    [resolvePromise] holds the promise whose [resolve] it would call. *)
Record State : Type := {
  isOpen : bool;
  blob : option Blob;
  blobSizeMb : option number;
  options : SplitAudioDialogOptions;
  resolvePromise : option PromiseId
}.

(** The promises made so far, and the value each settled one was resolved
    with, oldest first. *)
Record Promises : Type := {
  created : nat;
  settled : list (PromiseId * SplitAudioDialogResult)
}.

Definition Store : Type := (State * Promises)%type.

Definition value_of (ps : Promises) (p : PromiseId)
  : option SplitAudioDialogResult :=
  match find (fun e => Nat.eqb (fst e) p) (settled ps) with
  | Some e => Some (snd e)
  | None => None
  end.

Definition is_settled (ps : Promises) (p : PromiseId) : bool :=
  match value_of ps p with
  | Some _ => true
  | None => false
  end.

(** Calling the [resolve] of promise [p]: only the first call settles it. *)
Definition resolve (p : PromiseId) (v : SplitAudioDialogResult)
    (ps : Promises) : Promises :=
  if is_settled ps p then ps
  else {| created := created ps; settled := (settled ps ++ [(p, v)])%list |}.

(** The promises made and not settled. *)
Definition pending (ps : Promises) : list PromiseId :=
  filter (fun p => negb (is_settled ps p)) (seq 0 (created ps)).

Definition init : Store :=
  ({| isOpen := false;
      blob := None;
      blobSizeMb := None;
      options :=
        {| maxMb := num 25; bitrateKbps := num 128; minChunkSec := num 10;
           safetyMb := Fin (1 # 2); addSplitTags := true |};
      resolvePromise := None |},
   {| created := 0; settled := [] |}).

(** [set isOpen(value)] *)
Definition set_isOpen (value : bool) (s : Store) : Store :=
  let (st, ps) := s in
  ({| isOpen := value; blob := blob st; blobSizeMb := blobSizeMb st;
      options := options st; resolvePromise := resolvePromise st |}, ps).

(** [Partial<SplitAudioDialogOptions>] *)
Record PartialOptions : Type := {
  next_maxMb : option number;
  next_bitrateKbps : option number;
  next_minChunkSec : option number;
  next_safetyMb : option number;
  next_addSplitTags : option bool
}.

Definition or_else {A : Type} (o : option A) (d : A) : A :=
  match o with
  | Some a => a
  | None => d
  end.

(** [options = { ...options, ...next }] *)
Definition updateOptions (next : PartialOptions) (s : Store) : Store :=
  let (st, ps) := s in
  let o := options st in
  ({| isOpen := isOpen st; blob := blob st; blobSizeMb := blobSizeMb st;
      options :=
        {| maxMb := or_else (next_maxMb next) (maxMb o);
           bitrateKbps := or_else (next_bitrateKbps next) (bitrateKbps o);
           minChunkSec := or_else (next_minChunkSec next) (minChunkSec o);
           safetyMb := or_else (next_safetyMb next) (safetyMb o);
           addSplitTags := or_else (next_addSplitTags next) (addSplitTags o) |};
      resolvePromise := resolvePromise st |}, ps).

(** [open(request)]: returns the new promise. *)
Definition open (request : SplitAudioDialogRequest) (s : Store)
  : PromiseId * Store :=
  let (st, ps) := s in
  let ps1 :=
    match resolvePromise st with
    | Some r => resolve r None ps
    | None => ps
    end in
  let p := created ps1 in
  (p,
   ({| isOpen := true;
       blob := Some (req_blob request);
       blobSizeMb := Some (req_blobSizeMb request);
       options := req_options request;
       resolvePromise := Some p |},
    {| created := S (created ps1); settled := settled ps1 |})).

Definition confirm (s : Store) : Store :=
  let (st, ps) := s in
  match resolvePromise st with
  | None => s
  | Some r =>
      let currentOptions := options st in
      ({| isOpen := false; blob := blob st; blobSizeMb := blobSizeMb st;
          options := options st; resolvePromise := None |},
       resolve r (Some currentOptions) ps)
  end.

Definition cancel (s : Store) : Store :=
  let (st, ps) := s in
  match resolvePromise st with
  | None => s
  | Some r =>
      ({| isOpen := false; blob := blob st; blobSizeMb := blobSizeMb st;
          options := options st; resolvePromise := None |},
       resolve r None ps)
  end.

(** The calls a client of the store can make. *)
Inductive Op : Type :=
| OpOpen (request : SplitAudioDialogRequest)
| OpConfirm
| OpCancel
| OpUpdateOptions (next : PartialOptions)
| OpSetIsOpen (value : bool).

Definition step (s : Store) (op : Op) : Store :=
  match op with
  | OpOpen request => snd (open request s)
  | OpConfirm => confirm s
  | OpCancel => cancel s
  | OpUpdateOptions next => updateOptions next s
  | OpSetIsOpen value => set_isOpen value s
  end.

(** The stores that a sequence of calls can produce. *)
Definition reachable (s : Store) : Prop :=
  exists ops : list Op, s = fold_left step ops init.

(** What ties [resolvePromise] to the promises: a settled promise was
    made, the promise held by [resolvePromise] was made, and a promise that
    was made is unsettled exactly when [resolvePromise] holds it. *)
Definition inv (s : Store) : Prop :=
  (forall p, is_settled (snd s) p = true -> (p < created (snd s))%nat)
  /\ (forall r, resolvePromise (fst s) = Some r -> (r < created (snd s))%nat)
  /\ (forall p, (p < created (snd s))%nat ->
        (is_settled (snd s) p = false <-> resolvePromise (fst s) = Some p)).

Definition holder (st : State) : list PromiseId :=
  match resolvePromise st with
  | Some r => [r]
  | None => []
  end.

End SplitAudioDialog.

(* ================================================================== *)
(** ** What the specification says, in its own words *)
(* ================================================================== *)

Module Spec.

(** [target_bytes = (maxMb - safetyMb) * 1_048_576] *)
Definition target_bytes (o : SplitAudioDialogOptions) : number :=
  mul (sub (maxMb o) (safetyMb o)) (num 1048576).

(** [bytes_per_second = bitrateKbps * 1000 / 8] *)
Definition bytes_per_second (o : SplitAudioDialogOptions) : number :=
  div (mul (bitrateKbps o) (num 1000)) (num 8).

(** [chunk_seconds = max(minChunkSec, floor(target_bytes / bytes_per_second))] *)
Definition chunk_seconds (o : SplitAudioDialogOptions) : number :=
  Math_max (minChunkSec o)
    (Math_floor (div (target_bytes o) (bytes_per_second o))).

Definition is_digit (c : ascii) : bool :=
  ((48 <=? nat_of_ascii c) && (nat_of_ascii c <=? 57))%nat.

(** The shape [mm:ss]: two digits, a colon, two digits. *)
Definition mmss (s : string) : bool :=
  match s with
  | String m1 (String m2 (String c (String s1 (String s2 EmptyString)))) =>
      is_digit m1 && is_digit m2 && (c =? ":")%char
        && is_digit s1 && is_digit s2
  | _ => false
  end.

(** The tag format of the specification, [[Chunk {n} • {mm:ss} – {mm:ss}]]. *)
Definition tag_format (n : Z) (tag : string) : Prop :=
  exists a b : string,
    mmss a = true /\ mmss b = true /\
    tag = "[Chunk " ++ Z_toString n ++ " • " ++ a ++ " – " ++ b ++ "]".

(** A number below 100 on two digits. *)
Definition two_digits (z : Z) : string :=
  Z_toString (z / 10) ++ Z_toString (z mod 10).

(** A whole number of seconds as a clock time: [mm:ss] below one hour,
    [hh:mm:ss] from one hour on, the hours on two digits at least. *)
Definition clock (c : Z) : string :=
  (if (c <? 3600)%Z then ""
   else padStart 2 "0" (Z_toString (c / 3600)) ++ ":")
    ++ two_digits (c mod 3600 / 60) ++ ":" ++ two_digits (c mod 60).

(** The tag of chunk [n] for chunks of [chunkSeconds] seconds: it covers
    [(n-1) * chunkSeconds] to [n * chunkSeconds]. *)
Definition tag_of (chunkSeconds : number) (n : Z) : string :=
  formatSplitTag (num n) (mul (num (n - 1)) chunkSeconds)
    (mul (num n) chunkSeconds).

(** The merged segments with tags: the tag of chunk [n], then its trimmed
    transcript, for the chunks from number [n] on.  [None] stands for an
    array entry that holds no blob. *)
Fixpoint tagged (chunkSeconds : number) (n : Z)
    (texts : list (option string)) : list string :=
  match texts with
  | [] => []
  | None :: rest => tagged chunkSeconds (n + 1) rest
  | Some text :: rest =>
      tag_of chunkSeconds n :: trim text :: tagged chunkSeconds (n + 1) rest
  end.

(** The merged segments without tags: the trimmed transcripts. *)
Fixpoint untagged (texts : list (option string)) : list string :=
  match texts with
  | [] => []
  | None :: rest => untagged rest
  | Some text :: rest => trim text :: untagged rest
  end.

(** The merged segments of the chunks from number [n] on. *)
Definition segments_from (o : SplitAudioDialogOptions)
    (chunkSeconds : number) (n : Z) (texts : list (option string))
  : list string :=
  if addSplitTags o then tagged chunkSeconds n texts else untagged texts.

(** The merged segments for the options [o]. *)
Definition segments (o : SplitAudioDialogOptions)
    (texts : list (option string)) : list string :=
  segments_from o (chunk_seconds o) 1 texts.

(** What [transcribeRecording] writes to the database once the
    transcription has ended. *)
Definition final_record (recording : Recording)
    (r : Result string WhisperingError) : Recording :=
  match r with
  | Err _ => with_status recording FAILED
  | Ok text => with_text_and_status recording text DONE
  end.

(** The description of the warning shown when that last write fails. *)
Definition final_warning (r : Result string WhisperingError) : string :=
  match r with
  | Err _ =>
      "Transcription failed but unable to update recording's transcription status in database"
  | Ok _ =>
      "Transcription completed but unable to update recording's transcribed text and status in database"
  end.

(** The calls made by [if (error) notify.warning(...)]: one warning that
    carries the error, or none. *)
Definition warning_calls (r : Result unit ServiceError) (t d : string)
  : list Event :=
  match r with
  | Err e =>
      [Called (NotifyWarning
                 {| n_title := t; n_description := d; n_action := Some e |}) tt]
  | Ok _ => []
  end.

End Spec.

(* ================================================================== *)
(** ** Observations on a run *)
(* ================================================================== *)

Definition is_dialog_open (ev : Event) : bool :=
  match ev with
  | Called (DialogOpen _) _ => true
  | _ => false
  end.

Definition is_dialog_confirmed (ev : Event) : bool :=
  match ev with
  | Called (DialogOpen _) (Some _) => true
  | _ => false
  end.

Definition is_split (ev : Event) : bool :=
  match ev with
  | Called (SplitAudioBlob _ _) _ => true
  | _ => false
  end.

Definition is_provider_call (ev : Event) : bool :=
  match ev with
  | Called (Transcribe _ _ _) _ => true
  | _ => false
  end.

Definition dialog_opened (t : list Event) : bool := existsb is_dialog_open t.
Definition dialog_confirmed (t : list Event) : bool :=
  existsb is_dialog_confirmed t.
Definition split_invoked (t : list Event) : bool := existsb is_split t.
Definition provider_called (t : list Event) : bool :=
  existsb is_provider_call t.

Definition is_compress (ev : Event) : bool :=
  match ev with
  | Called (CompressAudioBlob _ _) _ => true
  | _ => false
  end.

(** The calls that neither open the dialog, nor split, nor reach a
    provider. *)
Definition is_plain (X : Type) (e : Eff X) : bool :=
  match e with
  | DialogOpen _ | SplitAudioBlob _ _ | Transcribe _ _ _ => false
  | _ => true
  end.

(** The calls of [transcribeWithProvider]. *)
Definition is_provider_side (X : Type) (e : Eff X) : bool :=
  match e with
  | ReadSettings | Transcribe _ _ _ => true
  | _ => false
  end.

(** [emits P p]: whatever the answers, [p] only makes calls that
    satisfy [P]. *)
Fixpoint emits {A : Type} (P : forall X : Type, Eff X -> bool) (p : Prog A)
  : Prop :=
  match p with
  | Ret _ => True
  | Vis e k => P _ e = true /\ forall x, emits P (k x)
  end.

Definition event_sat (P : forall X : Type, Eff X -> bool) (ev : Event) : bool :=
  match ev with
  | Called e _ => P _ e
  end.

(** The size above which [transcribeBlob] asks for a split, in bytes. *)
Definition split_threshold : N := 25 * 1048576.

Section Answers.

Context {W : Type} (h : Handler W) (selectedService : string).

(** [answered w chunks texts w' t]: from world [w], transcribing the blobs
    of [chunks] in order succeeds with the transcripts [texts], leaves
    world [w'] and makes the calls [t]. *)
Inductive answered
  : W -> list (option Blob) -> list (option string) -> W -> list Event -> Prop :=
| answered_nil (w : W) : answered w [] [] w []
| answered_hole (w w' : W) chunks texts t :
    answered w chunks texts w' t ->
    answered w (None :: chunks) (None :: texts) w' t
| answered_chunk (w w1 w' : W) chunk chunks text texts t1 t :
    run h (transcribeWithProvider chunk selectedService) w = (Ok text, w1, t1) ->
    answered w1 chunks texts w' t ->
    answered w (Some chunk :: chunks) (Some text :: texts) w' (t1 ++ t).

End Answers.

(* ================================================================== *)
(** ** A scripted outside world, for running the programs *)
(* ================================================================== *)

Module Script.

(** The answers of the services; the world is a clock that ticks at every
    call and is what [Date.now()] returns. *)
Record Script : Type := {
  sc_settings : Settings;
  sc_getAudioBlob : Result Blob ServiceError;
  sc_update : Recording -> Result unit ServiceError;
  sc_compress : Result Blob ServiceError;
  sc_split : Result (list (option Blob)) ServiceError;
  sc_dialog : SplitAudioDialogResult;
  sc_transcribe : Blob -> Result string WhisperingError
}.

Definition handler (sc : Script) : Handler nat :=
  fun X e w =>
    match e in Eff X return X * nat with
    | ReadSettings => (sc_settings sc, S w)
    | DateNow => (Z.of_nat w, S w)
    | LogEvent _ => (tt, S w)
    | NotifyWarning _ => (tt, S w)
    | NotifyInfo _ => (tt, S w)
    | GetAudioBlob _ => (sc_getAudioBlob sc, S w)
    | DbRecordingsUpdate r => (sc_update sc r, S w)
    | CompressAudioBlob _ _ => (sc_compress sc, S w)
    | SplitAudioBlob _ _ => (sc_split sc, S w)
    | DialogOpen _ => (sc_dialog sc, S w)
    | Transcribe _ audio _ => (sc_transcribe sc audio, S w)
    end.

Definition settings (service : string) (compress : bool) : Settings :=
  {| selectedTranscriptionService := service;
     compressionEnabled := compress;
     compressionOptions := "-c:a libopus -b:a 32k";
     splitMaxMB := num 25;
     splitBitrateKbps := num 128;
     splitMinChunkSec := num 10;
     splitSafetyMB := Fin (1 # 2);
     splitTaggingEnabled := true;
     outputLanguage := "auto"; prompt := ""; temperature := "0.0";
     apiKeys_openai := "k"; apiKeys_groq := "k"; apiKeys_elevenlabs := "k";
     apiKeys_deepgram := "k"; apiKeys_mistral := "k";
     apiEndpoints_openai := ""; apiEndpoints_groq := "";
     openai_model := "whisper-1"; groq_model := "whisper-large-v3";
     elevenlabs_model := "scribe_v1"; deepgram_model := "nova-2";
     mistral_model := "voxtral-mini-latest";
     speaches_modelId := "m"; speaches_baseUrl := "http://localhost:8000";
     whispercpp_modelPath := "/m.bin"; parakeet_modelPath := "/p";
     moonshine_modelPath := "/s" |}.

Definition defaults : SplitAudioDialogOptions :=
  {| maxMb := num 25; bitrateKbps := num 128; minChunkSec := num 10;
     safetyMb := Fin (1 # 2); addSplitTags := true |}.

(** A 30 MiB recording, its 5 MiB compressed form, and three chunks. *)
Definition big : Blob := {| blob_id := 0; size := 30 * 1048576 |}.
Definition small : Blob := {| blob_id := 1; size := 5 * 1048576 |}.
Definition chunk1 : Blob := {| blob_id := 11; size := 20 * 1048576 |}.
Definition chunk2 : Blob := {| blob_id := 12; size := 20 * 1048576 |}.
Definition chunk3 : Blob := {| blob_id := 13; size := 10 * 1048576 |}.

Definition quota : WhisperingError :=
  {| title := "Quota exceeded"; description := None; serviceError := None |}.

Definition disk_full : ServiceError := {| message := "disk full" |}.

(** Every chunk is transcribed, with white space around the text. *)
Definition hears (audio : Blob) : Result string WhisperingError :=
  Ok (if (blob_id audio =? 11)%nat then " one " ++ LF
      else if (blob_id audio =? 12)%nat then "two"
      else "  three").

(** The second chunk is refused. *)
Definition refuses_second (audio : Blob) : Result string WhisperingError :=
  if (blob_id audio =? 12)%nat then Err quota else hears audio.

Definition recording : Recording :=
  {| id := "rec-1"; transcribedText := "";
     transcriptionStatus := UNPROCESSED |}.

(** Compression succeeds, the dialog is confirmed, the split gives three
    chunks, the provider transcribes them all. *)
Definition happy : Script :=
  {| sc_settings := settings "OpenAI" true;
     sc_getAudioBlob := Ok big;
     sc_update := fun _ => Ok tt;
     sc_compress := Ok small;
     sc_split := Ok [Some chunk1; Some chunk2; Some chunk3];
     sc_dialog := Some defaults;
     sc_transcribe := hears |}.

Definition with_dialog (sc : Script) (d : SplitAudioDialogResult) : Script :=
  {| sc_settings := sc_settings sc; sc_getAudioBlob := sc_getAudioBlob sc;
     sc_update := sc_update sc; sc_compress := sc_compress sc;
     sc_split := sc_split sc; sc_dialog := d;
     sc_transcribe := sc_transcribe sc |}.

Definition with_compress (sc : Script) (c : Result Blob ServiceError) : Script :=
  {| sc_settings := sc_settings sc; sc_getAudioBlob := sc_getAudioBlob sc;
     sc_update := sc_update sc; sc_compress := c;
     sc_split := sc_split sc; sc_dialog := sc_dialog sc;
     sc_transcribe := sc_transcribe sc |}.

Definition with_split (sc : Script)
    (r : Result (list (option Blob)) ServiceError) : Script :=
  {| sc_settings := sc_settings sc; sc_getAudioBlob := sc_getAudioBlob sc;
     sc_update := sc_update sc; sc_compress := sc_compress sc;
     sc_split := r; sc_dialog := sc_dialog sc;
     sc_transcribe := sc_transcribe sc |}.

Definition with_transcribe (sc : Script)
    (f : Blob -> Result string WhisperingError) : Script :=
  {| sc_settings := sc_settings sc; sc_getAudioBlob := sc_getAudioBlob sc;
     sc_update := sc_update sc; sc_compress := sc_compress sc;
     sc_split := sc_split sc; sc_dialog := sc_dialog sc;
     sc_transcribe := f |}.

Definition with_update (sc : Script)
    (f : Recording -> Result unit ServiceError) : Script :=
  {| sc_settings := sc_settings sc; sc_getAudioBlob := sc_getAudioBlob sc;
     sc_update := f; sc_compress := sc_compress sc;
     sc_split := sc_split sc; sc_dialog := sc_dialog sc;
     sc_transcribe := sc_transcribe sc |}.

End Script.

(* ================================================================== *)
(** ** Further observations *)
(* ================================================================== *)

Module Observe.

(** The member of [services.transcriptions] behind each [case] label of
    [transcribeWithProvider]. *)
Definition provider_named (name : string) : option Provider :=
  if name =? "OpenAI" then Some openai
  else if name =? "Groq" then Some groq
  else if name =? "speaches" then Some speaches
  else if name =? "ElevenLabs" then Some elevenlabs
  else if name =? "Deepgram" then Some deepgram
  else if name =? "Mistral" then Some mistral
  else if name =? "whispercpp" then Some whispercpp
  else if name =? "parakeet" then Some parakeet
  else if name =? "moonshine" then Some moonshine
  else None.

(** The blobs handed to a provider, in the order of the calls. *)
Fixpoint audios_sent (t : list Event) : list Blob :=
  match t with
  | [] => []
  | Called (Transcribe _ audio _) _ :: rest => audio :: audios_sent rest
  | _ :: rest => audios_sent rest
  end.

(** The entries of an array that hold a value. *)
Fixpoint present {A : Type} (l : list (option A)) : list A :=
  match l with
  | [] => []
  | Some a :: rest => a :: present rest
  | None :: rest => present rest
  end.

Definition is_db_update (ev : Event) : bool :=
  match ev with
  | Called (DbRecordingsUpdate _) _ => true
  | _ => false
  end.

(** The analytics events that open and close a transcription. *)
Definition is_lifecycle_log (ev : Event) : bool :=
  match ev with
  | Called (LogEvent (transcription_requested _)) _
  | Called (LogEvent (transcription_failed _ _ _)) _
  | Called (LogEvent (transcription_completed _ _)) _ => true
  | _ => false
  end.

(** The event that closes a transcription with result [r]. *)
Definition outcome_event (selectedService : string) (duration : Z)
    (r : Result string WhisperingError) : AnalyticsEvent :=
  match r with
  | Err error =>
      transcription_failed selectedService (title error) (description error)
  | Ok _ => transcription_completed selectedService duration
  end.

(** The calls of the steps between the two lifecycle events: everything
    but the clock, the database and the lifecycle events themselves. *)
Definition is_inner (X : Type) (e : Eff X) : bool :=
  match e with
  | DateNow | GetAudioBlob _ | DbRecordingsUpdate _ => false
  | LogEvent (transcription_requested _)
  | LogEvent (transcription_failed _ _ _)
  | LogEvent (transcription_completed _ _) => false
  | _ => true
  end.

(** The calls of the routing step. *)
Definition is_route_side (X : Type) (e : Eff X) : bool :=
  match e with
  | ReadSettings | DialogOpen _ | SplitAudioBlob _ _ | Transcribe _ _ _ => true
  | _ => false
  end.

(** The calls of [transcribeBlob]: all but those to the database. *)
Definition is_blob_side (X : Type) (e : Eff X) : bool :=
  match e with
  | GetAudioBlob _ | DbRecordingsUpdate _ => false
  | _ => true
  end.

(** [{ ...options, ...next }] *)
Definition merged_options (o : SplitAudioDialogOptions)
    (next : SplitAudioDialog.PartialOptions) : SplitAudioDialogOptions :=
  {| maxMb :=
       SplitAudioDialog.or_else (SplitAudioDialog.next_maxMb next) (maxMb o);
     bitrateKbps :=
       SplitAudioDialog.or_else (SplitAudioDialog.next_bitrateKbps next)
         (bitrateKbps o);
     minChunkSec :=
       SplitAudioDialog.or_else (SplitAudioDialog.next_minChunkSec next)
         (minChunkSec o);
     safetyMb :=
       SplitAudioDialog.or_else (SplitAudioDialog.next_safetyMb next)
         (safetyMb o);
     addSplitTags :=
       SplitAudioDialog.or_else (SplitAudioDialog.next_addSplitTags next)
         (addSplitTags o) |}.

(** One call of [updateOptions], as a step of the store. *)
Definition edit (s : SplitAudioDialog.Store)
    (next : SplitAudioDialog.PartialOptions) : SplitAudioDialog.Store :=
  SplitAudioDialog.updateOptions next s.

Definition is_setter (op : SplitAudioDialog.Op) : bool :=
  match op with
  | SplitAudioDialog.OpSetIsOpen _ => true
  | _ => false
  end.

Definition is_some {A : Type} (o : option A) : bool :=
  match o with
  | Some _ => true
  | None => false
  end.

(** On options of [Binary64.on_grid] the code, in binary64, returns the
    whole number that the exact reading gives. *)
Definition binary64_agrees (za zb zm zs : Z) : Prop :=
  Binary64.exact (Binary64.calculateChunkSeconds (Binary64.on_grid za zb zm zs))
  = num (Z.max zm ((za - zs) / (125 * zb)))
  /\ calculateChunkSeconds (Binary64.read (Binary64.on_grid za zb zm zs) true)
     = num (Z.max zm ((za - zs) / (125 * zb))).

(** [compressionRatio] for an original of [original] bytes compressed to
    [compressed] bytes. *)
Definition compressionRatio (original compressed : N) : number :=
  Math_round
    (mul (sub (num 1) (div (num (Z.of_N compressed)) (num (Z.of_N original))))
       (num 100)).

End Observe.

(* ================================================================== *)
(** ** The script of the dialog component *)
(* ================================================================== *)

Module SplitAudioDialogView.
Import SplitAudioDialog.

(** The four keys that [updateNumberSetting] accepts. *)
Inductive NumberKey : Type :=
| transcription_splitMaxMB
| transcription_splitBitrateKbps
| transcription_splitMinChunkSec
| transcription_splitSafetyMB.

(** A call of [settings.updateKey], which belongs to another store: the
    handlers return it beside the new state of the dialog store. *)
Inductive SettingsUpdate : Type :=
| updateKey (key : NumberKey) (value : number).

(** [{ [optionKeyMap[key]]: nextValue }] *)
Definition optionKeyMap (key : NumberKey) (nextValue : number)
  : PartialOptions :=
  match key with
  | transcription_splitMaxMB =>
      {| next_maxMb := Some nextValue; next_bitrateKbps := None;
         next_minChunkSec := None; next_safetyMb := None;
         next_addSplitTags := None |}
  | transcription_splitBitrateKbps =>
      {| next_maxMb := None; next_bitrateKbps := Some nextValue;
         next_minChunkSec := None; next_safetyMb := None;
         next_addSplitTags := None |}
  | transcription_splitMinChunkSec =>
      {| next_maxMb := None; next_bitrateKbps := None;
         next_minChunkSec := Some nextValue; next_safetyMb := None;
         next_addSplitTags := None |}
  | transcription_splitSafetyMB =>
      {| next_maxMb := None; next_bitrateKbps := None;
         next_minChunkSec := None; next_safetyMb := Some nextValue;
         next_addSplitTags := None |}
  end.

(** [Number.isFinite] *)
Definition Number_isFinite (x : number) : bool :=
  match x with
  | Fin _ => true
  | _ => false
  end.

(** The option that the input of [key] shows, and passes as [fallback]. *)
Definition shown (key : NumberKey) (o : SplitAudioDialogOptions) : number :=
  match key with
  | transcription_splitMaxMB => maxMb o
  | transcription_splitBitrateKbps => bitrateKbps o
  | transcription_splitMinChunkSec => minChunkSec o
  | transcription_splitSafetyMB => safetyMb o
  end.

Definition finite_options (o : SplitAudioDialogOptions) : bool :=
  Number_isFinite (maxMb o) && Number_isFinite (bitrateKbps o)
    && Number_isFinite (minChunkSec o) && Number_isFinite (safetyMb o).

Section Script.

(** [Number(value)], the conversion of the text of an input. *)
Variable Number_ : string -> number.

Definition updateNumberSetting (key : NumberKey) (value : string)
    (fallback : number) (s : Store) : SettingsUpdate * Store :=
  let parsed := Number_ value in
  let nextValue := if Number_isFinite parsed then parsed else fallback in
  (updateKey key nextValue, updateOptions (optionKeyMap key nextValue) s).

(** The [oninput] handler of the input of [key]. *)
Definition oninput (key : NumberKey) (value : string) (s : Store)
  : SettingsUpdate * Store :=
  updateNumberSetting key value (shown key (options (fst s))) s.

(** A sequence of input events, each a key and the text typed. *)
Definition typed (s : Store) (event : NumberKey * string) : Store :=
  snd (oninput (fst event) (snd event) s).

End Script.

End SplitAudioDialogView.

(* ================================================================== *)
(** ** Numbers and strings: auxiliary facts *)
(* ================================================================== *)

Lemma append_assoc (a b c : string) : (a ++ b) ++ c = a ++ (b ++ c).
Proof. induction a as [|x a IH]; simpl; [reflexivity | now rewrite IH]. Qed.

Lemma append_length (a b : string) :
  String.length (a ++ b) = (String.length a + String.length b)%nat.
Proof. induction a as [|x a IH]; simpl; [reflexivity | now rewrite IH]. Qed.

Lemma Qeq_bool_inject_Z_pos (d : Z) :
  (0 < d)%Z -> Qeq_bool (inject_Z d) 0 = false.
Proof.
  intros Hd. destruct (Qeq_bool (inject_Z d) 0) eqn:E; [|reflexivity].
  apply Qeq_bool_eq in E. unfold Qeq in E. simpl in E. lia.
Qed.

Lemma gt_num (a b : Z) : gt (num a) (num b) = (b <? a)%Z.
Proof.
  unfold gt, num.
  destruct (Qle_bool (inject_Z a) (inject_Z b)) eqn:E; simpl; symmetry.
  - apply Qle_bool_iff in E. rewrite <- Zle_Qle in E. apply Z.ltb_ge. exact E.
  - apply Z.ltb_lt. destruct (Z.lt_ge_cases b a) as [H|H]; [exact H|].
    rewrite Zle_Qle in H. apply Qle_bool_iff in H. congruence.
Qed.

Lemma Math_max_num (a b : Z) : Math_max (num a) (num b) = num (Z.max a b).
Proof.
  unfold Math_max. fold (num a). fold (num b). change (Fin (inject_Z a)) with (num a).
  change (Fin (inject_Z b)) with (num b). rewrite gt_num.
  destruct (a <? b)%Z eqn:E.
  - apply Z.ltb_lt in E. rewrite Z.max_r by lia. reflexivity.
  - apply Z.ltb_ge in E. rewrite Z.max_l by lia. reflexivity.
Qed.

Lemma clamp_floor (t : Q) :
  0 <= t -> Math_max (num 0) (Math_floor (Fin t)) = num (Qfloor t).
Proof.
  intros Ht. simpl Math_floor. rewrite Math_max_num. f_equal.
  apply Z.max_r. change 0%Z with (Qfloor 0). apply Qfloor_resp_le. exact Ht.
Qed.

Lemma div_Fin_num (r : Q) (d : Z) :
  (0 < d)%Z -> div (Fin r) (num d) = Fin (r / inject_Z d).
Proof.
  intros Hd. unfold div, num. rewrite Qeq_bool_inject_Z_pos by exact Hd.
  reflexivity.
Qed.

(** [Math.floor(r / d)] on a value that is the integer [m]. *)
Lemma floor_div_integral (r : Q) (m d : Z) :
  r == inject_Z m -> (0 < d)%Z ->
  Math_floor (div (Fin r) (num d)) = num (m / d).
Proof.
  intros Hr Hd. rewrite div_Fin_num by exact Hd. unfold Math_floor.
  f_equal. rewrite Zdiv_Qdiv. apply Qfloor_comp. rewrite Hr. reflexivity.
Qed.

Lemma floor_div_num (c d : Z) :
  (0 < d)%Z -> Math_floor (div (num c) (num d)) = num (c / d).
Proof. intros Hd. apply floor_div_integral; [reflexivity | exact Hd]. Qed.

Lemma Qtrunc_nonneg_div (c d : Z) :
  (0 <= c)%Z -> (0 < d)%Z -> Qtrunc (inject_Z c / inject_Z d) = (c / d)%Z.
Proof.
  intros Hc Hd. rewrite Zdiv_Qdiv. unfold Qtrunc, by_sign.
  destruct d as [|d|d]; try lia.
  destruct c as [|c|c]; try lia; reflexivity.
Qed.

(** [c % d] on non-negative integers is the integer remainder. *)
Lemma rem_num (c d : Z) :
  (0 <= c)%Z -> (0 < d)%Z ->
  exists r : Q, rem (num c) (num d) = Fin r /\ r == inject_Z (c mod d).
Proof.
  intros Hc Hd. unfold rem, num. rewrite Qeq_bool_inject_Z_pos by exact Hd.
  eexists. split; [reflexivity|].
  rewrite Qtrunc_nonneg_div by assumption.
  rewrite Z.mod_eq by lia. unfold Z.sub.
  rewrite inject_Z_plus, inject_Z_opp, inject_Z_mult. reflexivity.
Qed.

Lemma String_integral (r : Q) (m : Z) :
  r == inject_Z m -> String_ (Fin r) = Z_toString m.
Proof.
  intros Hr. unfold String_.
  assert (Hf : Qfloor r = m).
  { rewrite (Qfloor_comp _ _ Hr). apply Qfloor_Z. }
  rewrite Hf.
  destruct (Qeq_bool r (inject_Z m)) eqn:E; [reflexivity|].
  apply Qeq_eq_bool in Hr. congruence.
Qed.

Lemma String_num (n : Z) : String_ (num n) = Z_toString n.
Proof. apply String_integral. reflexivity. Qed.

(** Below 100, padding the decimal digits to two places gives the tens
    digit and the units digit, both digits. *)
Lemma padStart_two_digits (z : Z) :
  (0 <= z < 100)%Z ->
  padStart 2 "0" (Z_toString z) = Spec.two_digits z /\
  exists d1 d2 : ascii,
    Spec.two_digits z = String d1 (String d2 EmptyString) /\
    Spec.is_digit d1 = true /\ Spec.is_digit d2 = true.
Proof.
  intros Hz. rewrite <- (Z2Nat.id z) by lia.
  assert (Hn : (Z.to_nat z < 100)%nat) by lia.
  revert Hn. generalize (Z.to_nat z). clear z Hz. intros n Hn.
  do 100 (destruct n as [|n];
          [split; [reflexivity | eexists; eexists; repeat split]|]).
  lia.
Qed.

Lemma clock_mmss (c : Z) :
  (0 <= c < 3600)%Z -> Spec.mmss (Spec.clock c) = true.
Proof.
  intros Hc. unfold Spec.clock.
  destruct (c <? 3600)%Z eqn:E; [|apply Z.ltb_ge in E; lia].
  rewrite Z.mod_small by lia.
  destruct (padStart_two_digits (c / 60)) as [_ (m1 & m2 & Hm & Hm1 & Hm2)].
  { split; [apply Z.div_pos; lia | apply Z.div_lt_upper_bound; lia]. }
  destruct (padStart_two_digits (c mod 60)) as [_ (s1 & s2 & Hs & Hs1 & Hs2)].
  { pose proof (Z.mod_pos_bound c 60). lia. }
  rewrite Hm, Hs. simpl. rewrite Hm1, Hm2, Hs1, Hs2. reflexivity.
Qed.

Lemma clock_hours (c : Z) :
  (3600 <= c)%Z ->
  Spec.clock c
  = padStart 2 "0" (Z_toString (c / 3600)) ++ ":" ++ Spec.clock (c mod 3600).
Proof.
  intros Hc. unfold Spec.clock at 1.
  destruct (c <? 3600)%Z eqn:E; [apply Z.ltb_lt in E; lia|].
  pose proof (Z.mod_pos_bound c 3600 ltac:(lia)) as Hm.
  unfold Spec.clock.
  destruct (c mod 3600 <? 3600)%Z eqn:E'; [|apply Z.ltb_ge in E'; lia].
  rewrite (Z.mod_small (c mod 3600) 3600) by lia.
  replace ((c mod 3600) mod 60)%Z with (c mod 60)%Z.
  - rewrite !append_assoc. reflexivity.
  - symmetry. apply Z.mod_mod_divide. exists 60%Z. reflexivity.
Qed.

(** [formatTimestamp] on a finite non-negative time is the clock time of
    its whole seconds. *)
Lemma formatTimestamp_clock (t : Q) :
  0 <= t -> formatTimestamp (Fin t) = Spec.clock (Qfloor t).
Proof.
  intros Ht. unfold formatTimestamp. cbv zeta. rewrite clamp_floor by exact Ht.
  assert (Hc : (0 <= Qfloor t)%Z).
  { change 0%Z with (Qfloor 0). apply Qfloor_resp_le. exact Ht. }
  set (c := Qfloor t) in *.
  destruct (rem_num c 3600 Hc ltac:(lia)) as (r1 & Hr1 & Er1).
  destruct (rem_num c 60 Hc ltac:(lia)) as (r2 & Hr2 & Er2).
  rewrite Hr1, Hr2.
  rewrite (floor_div_integral r1 (c mod 3600) 60 Er1) by lia.
  rewrite !floor_div_num by lia.
  rewrite gt_num, !String_num, (String_integral r2 _ Er2).
  pose proof (Z.mod_pos_bound c 3600 ltac:(lia)) as Hm.
  pose proof (Z.mod_pos_bound c 60 ltac:(lia)) as Hs.
  destruct (padStart_two_digits (c mod 3600 / 60)) as [-> _].
  { split; [apply Z.div_pos; lia | apply Z.div_lt_upper_bound; lia]. }
  destruct (padStart_two_digits (c mod 60)) as [-> _]; [lia|].
  unfold Spec.clock.
  destruct (c <? 3600)%Z eqn:E.
  - apply Z.ltb_lt in E. rewrite Z.div_small by lia. reflexivity.
  - apply Z.ltb_ge in E.
    assert (H1 : (1 <= c / 3600)%Z) by (apply Z.div_le_lower_bound; lia).
    destruct (0 <? c / 3600)%Z eqn:E'; [|apply Z.ltb_ge in E'; lia].
    rewrite !append_assoc. reflexivity.
Qed.

Lemma padStart_length (n : nat) (s : string) :
  (n <= String.length (padStart n "0" s))%nat.
Proof.
  unfold padStart. destruct (n <=? String.length s)%nat eqn:E.
  - apply Nat.leb_le in E. exact E.
  - apply Nat.leb_gt in E. simpl (String.length "0" =? 0)%nat. cbv iota.
    assert (Hrep : forall k, String.length (repeat_string "0" k) = k).
    { induction k; simpl; [reflexivity | now rewrite IHk]. }
    assert (Hsub : forall k u, (k <= String.length u)%nat ->
                               String.length (substring 0 k u) = k).
    { induction k; intros u Hu; destruct u; simpl in *;
        try lia; try reflexivity.
      rewrite IHk by lia. reflexivity. }
    rewrite append_length, Hsub by (rewrite Hrep; lia). lia.
Qed.

(* ================================================================== *)
(** ** Chunk duration *)
(* ================================================================== *)

(** On finite inputs with a non-zero bitrate the formula of the
    specification is its reading over the rationals. *)
Lemma chunk_seconds_rational (a b m s : Q) (tags : bool) :
  ~ b == 0 ->
  let f := Qfloor (((a - s) * 1048576) / (b * 1000 / 8)) in
  Spec.chunk_seconds
    {| maxMb := Fin a; bitrateKbps := Fin b; minChunkSec := Fin m;
       safetyMb := Fin s; addSplitTags := tags |}
  = if Qle_bool (inject_Z f) m then Fin m else num f.
Proof.
  intros Hb f. unfold Spec.chunk_seconds, Spec.target_bytes,
    Spec.bytes_per_second.
  cbn [maxMb safetyMb bitrateKbps minChunkSec sub mul num].
  change (Fin (inject_Z 8)) with (num 8). rewrite div_Fin_num by lia.
  unfold div.
  destruct (Qeq_bool (b * inject_Z 1000 / inject_Z 8) 0) eqn:E.
  - exfalso. apply Hb. apply Qeq_bool_eq in E.
    assert (H8 : b * inject_Z 1000 / inject_Z 8 == b * (125 # 1)) by field.
    rewrite H8 in E. destruct (Qmult_integral _ _ E) as [H|H];
      [exact H | discriminate H].
  - unfold Math_floor, Math_max, gt.
    change (inject_Z 1048576) with (1048576 : Q).
    change (inject_Z 1000) with (1000 : Q).
    change (inject_Z 8) with (8 : Q). fold f. unfold num at 1 2.
    destruct (Qle_bool (inject_Z f) m); reflexivity.
Qed.

(** With [maxMb] and [safetyMb] whole multiples of [2^-20] and a whole
    bitrate, the quotient of the formula is a quotient of whole numbers. *)
Lemma chunk_fit_whole (za zs zb : Z) (a b s : Q) :
  a == inject_Z za / 1048576 -> s == inject_Z zs / 1048576 ->
  b == inject_Z zb -> (0 < zb)%Z ->
  ~ b == 0
  /\ Qfloor (((a - s) * 1048576) / (b * 1000 / 8))
     = ((za - zs) / (125 * zb))%Z.
Proof.
  intros Ha Hs Hb Hzb.
  assert (Hnz : ~ inject_Z zb == 0).
  { intros E. unfold Qeq in E. simpl in E. lia. }
  split; [rewrite Hb; exact Hnz|].
  rewrite Zdiv_Qdiv. apply Qfloor_comp.
  rewrite Ha, Hs, Hb. unfold Z.sub.
  rewrite inject_Z_plus, inject_Z_opp, inject_Z_mult.
  change (inject_Z 125) with 125%Q.
  field. exact Hnz.
Qed.

(** The defaults are binary64 numbers, and on them the code, in binary64,
    computes what the exact reading computes.  So it does at the ends of
    the range of C1 below: the largest budget at the lowest bitrate, a
    quotient that misses a whole number by [1 / (125 * (2^31 - 1))], and a
    negative budget. *)
Lemma calculateChunkSeconds_binary64_in_range :
  Binary64.read Binary64.defaults true = Script.defaults
  /\ Binary64.exact (Binary64.calculateChunkSeconds Binary64.defaults)
     = calculateChunkSeconds Script.defaults
  /\ Observe.binary64_agrees 26214400 128 10 524288
  /\ Observe.binary64_agrees (2 ^ 51 - 1) 1 0 (- (2 ^ 51 - 1))
  /\ Observe.binary64_agrees (8388 * (125 * (2 ^ 31 - 1)) - 1) (2 ^ 31 - 1) 0 0
  /\ Observe.binary64_agrees (2 ^ 51 - 1) (2 ^ 31 - 1) 10 1
  /\ Observe.binary64_agrees 0 128 (-10) 1
  /\ Observe.binary64_agrees (- (2 ^ 51 - 1)) 3 (- (2 ^ 52)) (2 ^ 51 - 1).
Proof. repeat split; vm_compute; reflexivity. Qed.

(** C1, as stated, fails.  The code evaluates the formula with every
    operation rounded to binary64.  For [maxMb = 62.8], [safetyMb = 0.3],
    [bitrateKbps = 128] and [minChunkSec = 10] the subtraction rounds up to
    [62.5] and the code returns 4096, while the formula on the very numbers
    passed in, the binary64 numbers nearest to 62.8 and to 0.3, stays below
    4096: its floor is 4095.  For [maxMb = 64.1] and [safetyMb = 1.6] the
    code returns 4095, while the formula on 64.1 and 1.6 themselves is
    4096. *)
Lemma calculateChunkSeconds_rounds :
  Binary64.exact (Binary64.calculateChunkSeconds Binary64.rounds_up)
  = num 4096
  /\ (exists a s : Q,
        Binary64.exact (Binary64.maxMb Binary64.rounds_up) = Fin a
        /\ Binary64.exact (Binary64.safetyMb Binary64.rounds_up) = Fin s
        /\ Binary64.exact (Binary64.bitrateKbps Binary64.rounds_up) = num 128
        /\ Binary64.exact (Binary64.minChunkSec Binary64.rounds_up) = num 10
        /\ a == 8838314268714598 # 140737488355328
        /\ s == 5404319552844595 # 18014398509481984
        /\ Qmax 10
             (inject_Z (Qfloor (((a - s) * 1048576) / (128 * 1000 / 8))))
           == 4095
        /\ calculateChunkSeconds (Binary64.read Binary64.rounds_up true)
           = num 4095)
  /\ Binary64.exact (Binary64.calculateChunkSeconds Binary64.rounds_down)
     = num 4095
  /\ Qmax 10
       (inject_Z
          (Qfloor ((((641 # 10) - (16 # 10)) * 1048576) / (128 * 1000 / 8))))
     == 4096.
Proof.
  split; [vm_compute; reflexivity|]. split.
  - eexists. eexists.
    split; [vm_compute; reflexivity|]. split; [vm_compute; reflexivity|].
    split; [vm_compute; reflexivity|]. split; [vm_compute; reflexivity|].
    split; [vm_compute; reflexivity|]. split; [vm_compute; reflexivity|].
    split; vm_compute; reflexivity.
  - split; vm_compute; reflexivity.
Qed.

(** C1, amended.  For options whose [maxMb] and [safetyMb] are whole
    multiples of [2^-20] below [2^31] in size, whose [bitrateKbps] is a
    whole number from 1 to [2^31 - 1] and whose [minChunkSec] is finite,
    the operations of [calculateChunkSeconds] are exact up to the last
    division, whose rounding does not move the floor, and the result is
    [max(minChunkSec, floor(((maxMb - safetyMb) * 1_048_576) /
    (bitrateKbps * 1000 / 8)))] over the rationals; the floor is the quotient
    of the whole numbers [(maxMb - safetyMb) * 2^20] and
    [125 * bitrateKbps]. *)
Theorem calculateChunkSeconds_exact (za zs zb : Z) (a b m s : Q)
    (tags : bool) :
  a == inject_Z za / 1048576 -> s == inject_Z zs / 1048576 ->
  b == inject_Z zb ->
  (Z.abs za < 2 ^ 51)%Z -> (Z.abs zs < 2 ^ 51)%Z -> (0 < zb < 2 ^ 31)%Z ->
  let o := {| maxMb := Fin a; bitrateKbps := Fin b; minChunkSec := Fin m;
              safetyMb := Fin s; addSplitTags := tags |} in
  let fit := Qfloor (((a - s) * 1048576) / (b * 1000 / 8)) in
  exists q : Q,
    calculateChunkSeconds o = Fin q
    /\ q == Qmax m (inject_Z fit)
    /\ fit = ((za - zs) / (125 * zb))%Z.
Proof.
  intros Ha Hs Hb _ _ [Hzb _] o fit.
  destruct (chunk_fit_whole za zs zb a b s Ha Hs Hb Hzb) as [Hnz Hfit].
  change (calculateChunkSeconds o) with (Spec.chunk_seconds o). subst o.
  rewrite (chunk_seconds_rational a b m s tags Hnz). fold fit.
  destruct (Qle_bool (inject_Z fit) m) eqn:E.
  - exists m. split; [reflexivity|]. split; [|exact Hfit].
    symmetry. apply Q.max_l. apply Qle_bool_iff. exact E.
  - exists (inject_Z fit). split; [reflexivity|]. split; [|exact Hfit].
    symmetry. apply Q.max_r.
    destruct (Qlt_le_dec m (inject_Z fit)) as [H|H].
    + apply Qlt_le_weak. exact H.
    + apply Qle_bool_iff in H. congruence.
Qed.

Lemma calculateChunkSeconds_exact_witness :
  exists q : Q, calculateChunkSeconds Script.defaults = Fin q /\ q == 1605.
Proof.
  destruct (calculateChunkSeconds_exact 26214400 524288 128 25 128 10 (1 # 2)
              true) as (q & Hq & Eq & _).
  - vm_compute. reflexivity.
  - vm_compute. reflexivity.
  - vm_compute. reflexivity.
  - vm_compute. reflexivity.
  - vm_compute. reflexivity.
  - split; vm_compute; reflexivity.
  - exists q. split; [exact Hq|]. rewrite Eq. vm_compute. reflexivity.
Defined.

(* ================================================================== *)
(** ** Split tags *)
(* ================================================================== *)

(** C3, as stated, fails.  With the default options a chunk lasts 1605
    seconds, so the tag of the third chunk runs from 3210 to 4815 seconds:
    its end is written [01:20:15], which is not [mm:ss]. *)
Lemma formatSplitTag_third_chunk_not_mmss :
  formatSplitTag (num 3) (num 3210) (num 4815) = "[Chunk 3 • 53:30 – 01:20:15]"
  /\ Spec.mmss (formatTimestamp (num 4815)) = false
  /\ ~ Spec.tag_format 3 (formatSplitTag (num 3) (num 3210) (num 4815)).
Proof.
  split; [reflexivity|]. split; [reflexivity|].
  intros (a & b & Ha & Hb & H).
  destruct a as [|a1 [|a2 [|a3 [|a4 [|a5 [|? ?]]]]]]; try discriminate Ha.
  destruct b as [|b1 [|b2 [|b3 [|b4 [|b5 [|? ?]]]]]]; try discriminate Hb.
  vm_compute in H. discriminate H.
Qed.

(** Why the times are taken finite: a bitrate of zero makes the chunk
    duration infinite, and the tag of the first chunk then reads as
    follows. *)
Lemma formatSplitTag_zero_bitrate :
  let o := {| maxMb := num 25; bitrateKbps := num 0; minChunkSec := num 10;
              safetyMb := Fin (1 # 2); addSplitTags := true |} in
  calculateChunkSeconds o = Infinity
  /\ Spec.tag_of (calculateChunkSeconds o) 1
     = "[Chunk 1 • NaN:NaN – Infinity:NaN:NaN]".
Proof. split; reflexivity. Qed.

(** C3, amended.  For every chunk index [n >= 1] and finite non-negative
    start and end times whose whole seconds are below [2^53] (up to there
    binary64 holds every whole number, and the divisions of
    [formatTimestamp] have the floor of the exact quotient), the tag is
    [[Chunk {n} • {start} – {end}]] where each time is the clock time of
    its whole seconds: [mm:ss] on two digits each below one hour, and
    [hh:mm:ss] with the hours on at least two digits from one hour on.
    When both times are below one hour the tag has the format of the
    specification. *)
Theorem formatSplitTag_clock (n : Z) (s e : Q) :
  (1 <= n)%Z ->
  0 <= s -> (Qfloor s < 2 ^ 53)%Z ->
  0 <= e -> (Qfloor e < 2 ^ 53)%Z ->
  formatSplitTag (num n) (Fin s) (Fin e)
  = "[Chunk " ++ Z_toString n ++ " • " ++ Spec.clock (Qfloor s)
      ++ " – " ++ Spec.clock (Qfloor e) ++ "]"
  /\ (forall t : Q, 0 <= t -> (Qfloor t < 3600)%Z ->
        Spec.mmss (formatTimestamp (Fin t)) = true)
  /\ (forall t : Q, 0 <= t -> (3600 <= Qfloor t < 2 ^ 53)%Z ->
        exists hh rest : string,
          formatTimestamp (Fin t) = hh ++ ":" ++ rest
          /\ hh = padStart 2 "0" (Z_toString (Qfloor t / 3600))
          /\ (2 <= String.length hh)%nat
          /\ Spec.mmss rest = true)
  /\ ((Qfloor s < 3600)%Z -> (Qfloor e < 3600)%Z ->
        Spec.tag_format n (formatSplitTag (num n) (Fin s) (Fin e))).
Proof.
  intros Hn Hs _ He _.
  assert (Hnn : forall t : Q, 0 <= t -> (0 <= Qfloor t)%Z).
  { intros t Ht. change 0%Z with (Qfloor 0). apply Qfloor_resp_le. exact Ht. }
  assert (Htag : formatSplitTag (num n) (Fin s) (Fin e)
                 = "[Chunk " ++ Z_toString n ++ " • " ++ Spec.clock (Qfloor s)
                     ++ " – " ++ Spec.clock (Qfloor e) ++ "]").
  { unfold formatSplitTag.
    rewrite String_num, !formatTimestamp_clock by assumption. reflexivity. }
  split; [exact Htag|]. split; [|split].
  - intros t Ht Hlt. rewrite formatTimestamp_clock by exact Ht.
    apply clock_mmss. split; [apply Hnn; exact Ht | exact Hlt].
  - intros t Ht [Hge _]. rewrite formatTimestamp_clock by exact Ht.
    eexists. eexists. split; [apply clock_hours; exact Hge|].
    split; [reflexivity|]. split; [apply padStart_length|].
    apply clock_mmss. apply Z.mod_pos_bound. lia.
  - intros Hs' He'. rewrite Htag.
    exists (Spec.clock (Qfloor s)), (Spec.clock (Qfloor e)).
    split; [apply clock_mmss; split; [apply Hnn|]; assumption|].
    split; [apply clock_mmss; split; [apply Hnn|]; assumption|].
    reflexivity.
Qed.

Lemma formatSplitTag_clock_witness :
  formatSplitTag (num 2) (Fin (3211 # 2)) (num 3210)
  = "[Chunk 2 • 26:45 – 53:30]".
Proof.
  destruct (formatSplitTag_clock 2 (3211 # 2) (inject_Z 3210)) as [H _].
  - lia.
  - unfold Qle; simpl; lia.
  - vm_compute. reflexivity.
  - unfold Qle; simpl; lia.
  - vm_compute. reflexivity.
  - exact H.
Defined.

(* ================================================================== *)
(** ** The split dialog store *)
(* ================================================================== *)

Module SplitAudioDialogFacts.
Import SplitAudioDialog.

Lemma value_of_resolve (r p : PromiseId) (v : SplitAudioDialogResult)
    (ps : Promises) :
  value_of (resolve r v ps) p
  = match value_of ps p with
    | Some x => Some x
    | None => if Nat.eqb r p then Some v else None
    end.
Proof.
  unfold resolve, is_settled.
  destruct (value_of ps r) eqn:Er.
  - destruct (value_of ps p) eqn:Ep; [reflexivity|].
    destruct (Nat.eqb r p) eqn:E; [|reflexivity].
    apply Nat.eqb_eq in E. subst. congruence.
  - unfold value_of in *. cbn [settled].
    induction (settled ps) as [|[q x] l IH]; simpl in *.
    + destruct (Nat.eqb r p); reflexivity.
    + destruct (Nat.eqb q p) eqn:E; [reflexivity|].
      apply IH. destruct (Nat.eqb q r); [discriminate Er | exact Er].
Qed.

Lemma is_settled_resolve (r p : PromiseId) (v : SplitAudioDialogResult)
    (ps : Promises) :
  is_settled (resolve r v ps) p = is_settled ps p || Nat.eqb r p.
Proof.
  unfold is_settled. rewrite value_of_resolve.
  destruct (value_of ps p); [reflexivity|].
  destruct (Nat.eqb r p); reflexivity.
Qed.

Lemma created_resolve (r : PromiseId) (v : SplitAudioDialogResult)
    (ps : Promises) : created (resolve r v ps) = created ps.
Proof. unfold resolve. destruct (is_settled ps r); reflexivity. Qed.

Lemma inv_init : inv init.
Proof.
  unfold inv, init. simpl. repeat split; intros; try discriminate; lia.
Qed.

(** Settling the promise held by [resolvePromise] and dropping it leaves
    every promise settled. *)
Lemma inv_settle (st st' : State) (ps : Promises) (r : PromiseId)
    (v : SplitAudioDialogResult) :
  inv (st, ps) -> resolvePromise st = Some r -> resolvePromise st' = None ->
  inv (st', resolve r v ps).
Proof.
  intros (Hlt & Hmade & Hiff) Hr Hnone. simpl in *.
  split; [|split]; simpl; rewrite ?created_resolve.
  - intros p. rewrite is_settled_resolve. intros H.
    apply orb_true_iff in H. destruct H as [H|H]; [apply Hlt; exact H|].
    apply Nat.eqb_eq in H. subst p. apply Hmade. exact Hr.
  - intros q Hq. congruence.
  - intros p Hp. rewrite is_settled_resolve. split; intros H.
    + apply orb_false_iff in H. destruct H as [H1 H2].
      apply Hiff in H1; [|exact Hp].
      rewrite Hr in H1. injection H1 as ->. rewrite Nat.eqb_refl in H2.
      discriminate H2.
    + congruence.
Qed.

Lemma inv_frame (st st' : State) (ps : Promises) :
  inv (st, ps) -> resolvePromise st' = resolvePromise st -> inv (st', ps).
Proof.
  unfold inv. simpl. intros H E. rewrite E. exact H.
Qed.

Lemma inv_open (request : SplitAudioDialogRequest) (s : Store) :
  inv s -> inv (snd (open request s)).
Proof.
  destruct s as [st ps]. intros Hinv. unfold open.
  set (ps1 := match resolvePromise st with
              | Some r => resolve r None ps
              | None => ps
              end).
  assert (Hall : (forall p, is_settled ps1 p = true -> (p < created ps1)%nat)
                 /\ (forall p, (p < created ps1)%nat -> is_settled ps1 p = true)).
  { subst ps1. destruct (resolvePromise st) as [r|] eqn:Hr.
    - pose (st0 := {| isOpen := isOpen st; blob := blob st;
                      blobSizeMb := blobSizeMb st; options := options st;
                      resolvePromise := None |}).
      destruct (inv_settle st st0 ps r None Hinv Hr eq_refl) as (A & _ & C).
      simpl in A, C. split; [exact A|].
      intros p Hp. destruct (is_settled (resolve r None ps) p) eqn:E;
        [reflexivity|]. apply C in E; [discriminate E | exact Hp].
    - destruct Hinv as (A & _ & C). simpl in A, C. split; [exact A|].
      intros p Hp. destruct (is_settled ps p) eqn:E; [reflexivity|].
      apply C in E; [rewrite Hr in E; discriminate E | exact Hp]. }
  destruct Hall as [A C].
  assert (Hsame : forall p,
            is_settled {| created := S (created ps1); settled := settled ps1 |} p
            = is_settled ps1 p) by reflexivity.
  split; [|split]; simpl.
  - intros p. rewrite Hsame. intros H. apply A in H. lia.
  - intros r H. injection H as <-. lia.
  - intros p Hp. rewrite Hsame. split; intros H.
    + destruct (Nat.eq_dec p (created ps1)) as [->|Hne]; [reflexivity|].
      rewrite C in H by lia. discriminate H.
    + injection H as <-.
      destruct (is_settled ps1 (created ps1)) eqn:E; [|reflexivity].
      apply A in E. lia.
Qed.

Lemma inv_step (s : Store) (op : Op) : inv s -> inv (step s op).
Proof.
  intros Hinv. destruct op as [request| | |next|value]; simpl.
  - apply inv_open. exact Hinv.
  - destruct s as [st ps]. unfold confirm.
    destruct (resolvePromise st) as [r|] eqn:Hr; [|exact Hinv].
    apply (inv_settle st _ ps r _ Hinv Hr). reflexivity.
  - destruct s as [st ps]. unfold cancel.
    destruct (resolvePromise st) as [r|] eqn:Hr; [|exact Hinv].
    apply (inv_settle st _ ps r _ Hinv Hr). reflexivity.
  - destruct s as [st ps]. apply (inv_frame st); [exact Hinv | reflexivity].
  - destruct s as [st ps]. apply (inv_frame st); [exact Hinv | reflexivity].
Qed.

Lemma reachable_inv (s : Store) : reachable s -> inv s.
Proof.
  intros [ops ->]. pose proof inv_init as H. revert H.
  generalize init. induction ops as [|op ops IH]; intros s H; simpl.
  - exact H.
  - apply IH. apply inv_step. exact H.
Qed.

Lemma reachable_step (s : Store) (op : Op) :
  reachable s -> reachable (step s op).
Proof.
  intros [ops ->]. exists (ops ++ [op])%list.
  rewrite fold_left_app. reflexivity.
Qed.

(** Under the invariant the pending promises are the one that
    [resolvePromise] holds, if any. *)
Lemma inv_pending (s : Store) : inv s -> pending (snd s) = holder (fst s).
Proof.
  destruct s as [st ps]. intros (A & B & C). simpl in *.
  unfold pending, holder.
  assert (Hfilter : forall (f : nat -> bool) (n : nat) (r : nat),
            (r < n)%nat ->
            (forall p, (p < n)%nat -> (f p = true <-> p = r)) ->
            filter f (seq 0 n) = [r]).
  { intros f n r Hr Hf.
    assert (Hin : forall x, In x (filter f (seq 0 n)) <-> x = r).
    { intros x. rewrite filter_In, in_seq. split.
      - intros [Hx Hfx]. apply Hf; [lia | exact Hfx].
      - intros ->. split; [lia | apply Hf; [exact Hr | reflexivity]]. }
    pose proof (NoDup_filter f (seq_NoDup n 0)) as Hnd.
    destruct (filter f (seq 0 n)) as [|a l].
    - destruct (Hin r) as [_ H]. destruct (H eq_refl).
    - assert (a = r) by (apply Hin; left; reflexivity). subst a.
      destruct l as [|b l]; [reflexivity|].
      assert (b = r) by (apply Hin; right; left; reflexivity). subst b.
      inversion Hnd as [|? ? Hnot _]. exfalso. apply Hnot. left. reflexivity. }
  destruct (resolvePromise st) as [r|] eqn:Hr.
  - apply Hfilter; [apply B; reflexivity|].
    intros p Hp. rewrite negb_true_iff. rewrite (C p Hp).
    split; [intros H; injection H as ->; reflexivity | intros ->; reflexivity].
  - assert (Hnone : forall l, (forall p, In p l -> (p < created ps)%nat) ->
                      filter (fun p => negb (is_settled ps p)) l = []).
    { induction l as [|x l IH]; intros Hl; simpl; [reflexivity|].
      destruct (is_settled ps x) eqn:E; simpl.
      - apply IH. intros p Hp. apply Hl. right. exact Hp.
      - apply C in E; [discriminate E | apply Hl; left; reflexivity]. }
    apply Hnone. intros p Hp. apply in_seq in Hp. lia.
Qed.

Lemma inv_unsettled (s : Store) (r : PromiseId) :
  inv s -> resolvePromise (fst s) = Some r -> value_of (snd s) r = None.
Proof.
  intros (_ & B & C) Hr. pose proof (B r Hr) as Hlt.
  destruct (C r Hlt) as [_ H]. specialize (H Hr). unfold is_settled in H.
  destruct (value_of (snd s) r); [discriminate H | reflexivity].
Qed.

(** C8.  The store keeps at most one pending request, the one whose
    resolver it holds.  [open] resolves a previously pending promise with
    [null] and installs the resolver of a new promise, which is then the
    only pending one.  After [confirm] or [cancel] the resolver is cleared;
    with a request pending, [isOpen] is then false and the pending promise
    is resolved, by [confirm] with the current options and by [cancel] with
    [null]. *)
Theorem store_single_pending (s : Store) :
  reachable s ->
  (pending (snd s) = holder (fst s)
   /\ (List.length (pending (snd s)) <= 1)%nat)
  /\ (forall request : SplitAudioDialogRequest,
        let p := fst (open request s) in
        let s' := snd (open request s) in
        (forall r, resolvePromise (fst s) = Some r ->
                   value_of (snd s') r = Some None /\ r <> p)
        /\ resolvePromise (fst s') = Some p
        /\ pending (snd s') = [p]
        /\ isOpen (fst s') = true)
  /\ (resolvePromise (fst (confirm s)) = None
      /\ resolvePromise (fst (cancel s)) = None)
  /\ (forall r, resolvePromise (fst s) = Some r ->
        value_of (snd (confirm s)) r = Some (Some (options (fst s)))
        /\ isOpen (fst (confirm s)) = false
        /\ pending (snd (confirm s)) = [])
  /\ (forall r, resolvePromise (fst s) = Some r ->
        value_of (snd (cancel s)) r = Some None
        /\ isOpen (fst (cancel s)) = false
        /\ pending (snd (cancel s)) = []).
Proof.
  intros Hreach. pose proof (reachable_inv s Hreach) as Hinv.
  split; [|split; [|split; [|split]]].
  - rewrite (inv_pending s Hinv). split; [reflexivity|].
    unfold holder. destruct (resolvePromise (fst s)); simpl; lia.
  - intros request p s'.
    pose proof (reachable_inv _ (reachable_step s (OpOpen request) Hreach))
      as Hinv'. simpl in Hinv'. fold s' in Hinv'.
    assert (Hres : resolvePromise (fst s') = Some p).
    { subst p s'. destruct s as [st ps]. reflexivity. }
    split; [|split; [exact Hres | split]].
    + intros r Hr. pose proof (inv_unsettled s r Hinv Hr) as Hun.
      destruct Hinv as (_ & B & _). pose proof (B r Hr) as Hlt.
      subst p s'. destruct s as [st ps]. simpl in *. unfold open.
      rewrite Hr. simpl. rewrite created_resolve. split; [|lia].
      change (value_of (resolve r None ps) r = Some None).
      rewrite value_of_resolve, Hun, Nat.eqb_refl. reflexivity.
    + rewrite (inv_pending s' Hinv'). unfold holder. rewrite Hres. reflexivity.
    + subst s'. destruct s as [st ps]. reflexivity.
  - destruct s as [st ps]. unfold confirm, cancel.
    destruct (resolvePromise st) eqn:Hr; simpl; rewrite ?Hr; split; reflexivity.
  - intros r Hr. pose proof (inv_unsettled s r Hinv Hr) as Hun.
    pose proof (reachable_inv _ (reachable_step s OpConfirm Hreach)) as Hinv'.
    simpl in Hinv'. rewrite (inv_pending _ Hinv').
    destruct s as [st ps]. simpl in *. unfold confirm, holder. rewrite Hr.
    simpl. rewrite value_of_resolve, Hun, Nat.eqb_refl. repeat split.
  - intros r Hr. pose proof (inv_unsettled s r Hinv Hr) as Hun.
    pose proof (reachable_inv _ (reachable_step s OpCancel Hreach)) as Hinv'.
    simpl in Hinv'. rewrite (inv_pending _ Hinv').
    destruct s as [st ps]. simpl in *. unfold cancel, holder. rewrite Hr.
    simpl. rewrite value_of_resolve, Hun, Nat.eqb_refl. repeat split.
Qed.

Lemma store_single_pending_witness :
  let request :=
    {| req_blob := Script.big; req_blobSizeMb := num 30;
       req_options := Script.defaults |} in
  let s := snd (open request init) in
  reachable s
  /\ pending (snd s) = [0%nat]
  /\ value_of (snd (confirm s)) 0%nat = Some (Some Script.defaults)
  /\ value_of (snd (cancel s)) 0%nat = Some None
  /\ value_of (snd (snd (open request s))) 0%nat = Some None
  /\ pending (snd (snd (open request s))) = [1%nat].
Proof.
  intros request s.
  assert (Hreach : reachable s) by (exists [OpOpen request]; reflexivity).
  destruct (store_single_pending s Hreach) as ((Hp & _) & Hopen & _ & Hc & Hx).
  destruct (Hopen request) as (Hold & _ & Hnew & _).
  destruct (Hold 0%nat eq_refl) as [Hnull _].
  destruct (Hc 0%nat eq_refl) as (Hcv & _).
  destruct (Hx 0%nat eq_refl) as (Hxv & _).
  split; [exact Hreach|]. split; [exact Hp|]. split; [exact Hcv|].
  split; [exact Hxv|]. split; [exact Hnull | exact Hnew].
Defined.

(** C9.  With no request pending, [confirm] and [cancel] change nothing:
    [isOpen], [blob], [blobSizeMb], [options] and the resolver keep their
    values, and no promise is touched. *)
Theorem confirm_cancel_without_request (s : Store) :
  resolvePromise (fst s) = None ->
  confirm s = s /\ cancel s = s.
Proof.
  intros H. destruct s as [st ps]. simpl in H. unfold confirm, cancel.
  rewrite H. split; reflexivity.
Qed.

Lemma confirm_cancel_without_request_witness :
  confirm (set_isOpen true init) = set_isOpen true init
  /\ cancel (set_isOpen true init) = set_isOpen true init.
Proof.
  apply (confirm_cancel_without_request (set_isOpen true init)). reflexivity.
Defined.

End SplitAudioDialogFacts.

(* ================================================================== *)
(** ** Running programs *)
(* ================================================================== *)

Section RunFacts.

Context {W : Type} (h : Handler W).

Lemma run_eta {A : Type} (o : A * W * list Event) :
  (result_of o, world_of o, trace_of o) = o.
Proof. destruct o as [[a w] t]. reflexivity. Qed.

Lemma run_bind {A B : Type} (p : Prog A) (f : A -> Prog B) (w : W) :
  run h (bind p f) w
  = (result_of (run h (f (result_of (run h p w))) (world_of (run h p w))),
     world_of (run h (f (result_of (run h p w))) (world_of (run h p w))),
     (trace_of (run h p w)
        ++ trace_of (run h (f (result_of (run h p w))) (world_of (run h p w))))%list).
Proof.
  revert w. induction p as [a | X e k IH]; intros w.
  - simpl. unfold result_of, world_of, trace_of. simpl.
    destruct (run h (f a) w) as [[b w'] t]. reflexivity.
  - simpl. rewrite IH. reflexivity.
Qed.

(** A program whose run is known, followed by a continuation. *)
Lemma run_bind_known {A B : Type} (p : Prog A) (f : A -> Prog B) (w w1 : W)
    (a : A) (t : list Event) :
  run h p w = (a, w1, t) ->
  run h (bind p f) w
  = (result_of (run h (f a) w1), world_of (run h (f a) w1),
     (t ++ trace_of (run h (f a) w1))%list).
Proof. intros H. rewrite run_bind, H. reflexivity. Qed.

Lemma run_call {X : Type} (e : Eff X) (w : W) :
  run h (call e) w = (fst (h _ e w), snd (h _ e w), [Called e (fst (h _ e w))]).
Proof. reflexivity. Qed.

Lemma emits_bind {A B : Type} (P : forall X : Type, Eff X -> bool)
    (p : Prog A) (f : A -> Prog B) :
  emits P p -> (forall a, emits P (f a)) -> emits P (bind p f).
Proof.
  intros Hp Hf. induction p as [a | X e k IH]; simpl in *.
  - apply Hf.
  - destruct Hp as [He Hk]. split; [exact He|].
    intros x. apply IH. apply Hk.
Qed.

Lemma emits_trace {A : Type} (P : forall X : Type, Eff X -> bool)
    (p : Prog A) (w : W) :
  emits P p -> forallb (event_sat P) (trace_of (run h p w)) = true.
Proof.
  revert w. induction p as [a | X e k IH]; intros w Hp; simpl in *.
  - reflexivity.
  - destruct Hp as [He Hk]. unfold trace_of in *. simpl. rewrite He. simpl.
    apply IH. apply Hk.
Qed.

(** A trace of calls that all satisfy [P] has none that satisfies [Q],
    when [P] and [Q] exclude each other. *)
Lemma existsb_excluded (P : forall X : Type, Eff X -> bool)
    (Q : Event -> bool) (t : list Event) :
  (forall ev, event_sat P ev = true -> Q ev = false) ->
  forallb (event_sat P) t = true -> existsb Q t = false.
Proof.
  intros HPQ. induction t as [|ev t IH]; simpl; [reflexivity|].
  intros H. apply andb_true_iff in H. destruct H as [H1 H2].
  rewrite (HPQ ev H1), (IH H2). reflexivity.
Qed.

End RunFacts.

(* ================================================================== *)
(** ** The split path *)
(* ================================================================== *)

Section SplitPath.

Context {W : Type} (h : Handler W).

(** The tag pushed at position [index] is the tag of chunk [index + 1]. *)
Lemma pushed_tag (chunkSeconds : number) (index : Z) :
  formatSplitTag (num (index + 1)) (mul (num index) chunkSeconds)
    (mul (num (index + 1)) chunkSeconds)
  = Spec.tag_of chunkSeconds (index + 1).
Proof. unfold Spec.tag_of. rewrite Z.add_simpl_r. reflexivity. Qed.

Lemma segments_from_hole o cs n texts :
  Spec.segments_from o cs n (None :: texts)
  = Spec.segments_from o cs (n + 1) texts.
Proof. unfold Spec.segments_from. destruct (addSplitTags o); reflexivity. Qed.

Lemma transcribeChunks_hole o svc cs rest index merged :
  transcribeChunks o svc cs (None :: rest) index merged
  = transcribeChunks o svc cs rest (index + 1) merged.
Proof. reflexivity. Qed.

Lemma transcribeChunks_chunk o svc cs chunk rest index merged :
  transcribeChunks o svc cs (Some chunk :: rest) index merged
  = bind (transcribeWithProvider chunk svc)
      (fun r =>
         match r with
         | Err chunkError => Ret (Err chunkError)
         | Ok text =>
             transcribeChunks o svc cs rest (index + 1)
               ((if addSplitTags o
                 then merged ++ [formatSplitTag (num (index + 1))
                                   (mul (num index) cs)
                                   (mul (num (index + 1)) cs)]
                 else merged) ++ [trim text])
         end)%list.
Proof. reflexivity. Qed.

(** The loop over a prefix of chunks that are all transcribed. *)
Lemma transcribeChunks_answered (o : SplitAudioDialogOptions)
    (selectedService : string) (cs : number) (w w1 : W)
    (pre : list (option Blob)) (texts : list (option string))
    (t : list Event) :
  answered h selectedService w pre texts w1 t ->
  forall (rest : list (option Blob)) (index : Z) (merged : list string),
    run h (transcribeChunks o selectedService cs (pre ++ rest) index merged) w
    = (result_of
         (run h (transcribeChunks o selectedService cs rest
                   (index + Z.of_nat (List.length pre))
                   (merged ++ Spec.segments_from o cs (index + 1) texts)) w1),
       world_of
         (run h (transcribeChunks o selectedService cs rest
                   (index + Z.of_nat (List.length pre))
                   (merged ++ Spec.segments_from o cs (index + 1) texts)) w1),
       (t ++ trace_of
          (run h (transcribeChunks o selectedService cs rest
                    (index + Z.of_nat (List.length pre))
                    (merged ++ Spec.segments_from o cs (index + 1) texts)) w1))%list).
Proof.
  induction 1 as [w | w w' chunks texts t Hans IH
                    | w w1 w' chunk chunks text texts t1 t Hrun Hans IH];
    intros rest index merged.
  - simpl List.length. simpl Z.of_nat. rewrite Z.add_0_r.
    replace (Spec.segments_from o cs (index + 1) []) with (@nil string)
      by (unfold Spec.segments_from; destruct (addSplitTags o); reflexivity).
    rewrite app_nil_r. simpl app. symmetry. apply run_eta.
  - simpl app. rewrite transcribeChunks_hole, IH.
    rewrite segments_from_hole.
    replace (index + 1 + Z.of_nat (List.length chunks))%Z
      with (index + Z.of_nat (List.length (None :: chunks)))%Z
      by (simpl List.length; lia).
    reflexivity.
  - simpl app. rewrite transcribeChunks_chunk.
    rewrite (run_bind_known h _ _ w w1 (Ok text) t1 Hrun).
    rewrite IH.
    replace (index + 1 + Z.of_nat (List.length chunks))%Z
      with (index + Z.of_nat (List.length (Some chunk :: chunks)))%Z
      by (simpl List.length; lia).
    assert (Hm : (((if addSplitTags o
                    then merged ++ [formatSplitTag (num (index + 1))
                                      (mul (num index) cs)
                                      (mul (num (index + 1)) cs)]
                    else merged) ++ [trim text])
                  ++ Spec.segments_from o cs (index + 1 + 1) texts
                  = merged
                    ++ Spec.segments_from o cs (index + 1) (Some text :: texts))%list).
    { unfold Spec.segments_from. destruct (addSplitTags o).
      - rewrite pushed_tag. simpl Spec.tagged. rewrite <- !app_assoc.
        reflexivity.
      - simpl Spec.untagged. rewrite <- app_assoc. reflexivity. }
    rewrite Hm. unfold result_of, world_of, trace_of. simpl.
    rewrite <- app_assoc. reflexivity.
Qed.

Lemma untagged_dense (dense : list string) :
  Spec.untagged (map Some dense) = map trim dense.
Proof.
  induction dense as [|text dense IH]; simpl; [reflexivity | now rewrite IH].
Qed.

Lemma run_transcribeSplitAudio (blob : Blob) (o : SplitAudioDialogOptions)
    (selectedService : string) (w : W) :
  let split :=
    SplitAudioBlob blob
      {| sp_maxMb := maxMb o; sp_bitrateKbps := bitrateKbps o;
         sp_minChunkSec := minChunkSec o; sp_safetyMb := safetyMb o |} in
  let rest :=
    run h
      (match fst (h _ split w) with
       | Err splitError =>
           Ret (WhisperingErr
                  {| title := "Audio split failed"; description := None;
                     serviceError := Some splitError |})
       | Ok splitBlobs =>
           transcribeChunks o selectedService (calculateChunkSeconds o)
             splitBlobs 0 []
       end) (snd (h _ split w)) in
  run h (transcribeSplitAudio blob o selectedService) w
  = (result_of rest, world_of rest,
     Called split (fst (h _ split w)) :: trace_of rest).
Proof.
  intros split rest. unfold transcribeSplitAudio. rewrite run_bind.
  rewrite run_call. reflexivity.
Qed.

(** C4.  When every chunk is transcribed, the result of the split path is
    the merged segments joined with two line feeds.  With [addSplitTags]
    the segments are, for each chunk [n] in order, its tag, covering
    [(n-1) * chunkSeconds] to [n * chunkSeconds], and then its trimmed
    transcript; without it they are the trimmed transcripts alone. *)
Theorem transcribeSplitAudio_merges (blob : Blob)
    (o : SplitAudioDialogOptions) (selectedService : string) (w w0 w' : W)
    (chunks : list (option Blob)) (texts : list (option string))
    (t : list Event) :
  let split :=
    SplitAudioBlob blob
      {| sp_maxMb := maxMb o; sp_bitrateKbps := bitrateKbps o;
         sp_minChunkSec := minChunkSec o; sp_safetyMb := safetyMb o |} in
  h _ split w = (Ok chunks, w0) ->
  answered h selectedService w0 chunks texts w' t ->
  run h (transcribeSplitAudio blob o selectedService) w
  = (Ok (join (LF ++ LF) (Spec.segments o texts)), w',
     Called split (Ok chunks) :: t)
  /\ (addSplitTags o = true ->
        Spec.segments o texts
        = Spec.tagged (calculateChunkSeconds o) 1 texts)
  /\ (addSplitTags o = false ->
        Spec.segments o texts = Spec.untagged texts
        /\ forall dense : list string,
             texts = map Some dense -> Spec.segments o texts = map trim dense).
Proof.
  intros split Hsplit Hans. split; [|split].
  - rewrite run_transcribeSplitAudio. fold split. rewrite Hsplit.
    cbn [fst snd].
    pose proof (transcribeChunks_answered o selectedService
                  (calculateChunkSeconds o) w0 w' chunks texts t Hans
                  [] 0%Z []) as H.
    rewrite app_nil_r in H. rewrite H.
    unfold result_of, world_of, trace_of. simpl. rewrite app_nil_r.
    reflexivity.
  - intros Htags. unfold Spec.segments, Spec.segments_from.
    rewrite Htags. reflexivity.
  - intros Htags. unfold Spec.segments, Spec.segments_from.
    rewrite Htags. split; [reflexivity|].
    intros dense ->. apply untagged_dense.
Qed.

(** C7.  The split path aborts on an error.  If the split service errs,
    the result is the error titled [Audio split failed] that carries the
    service's error, and nothing else is called.  If the transcription of
    a chunk errs after the chunks before it were transcribed, the result is
    that error, and the run ends with that call: no later chunk is
    transcribed and nothing is merged. *)
Theorem transcribeSplitAudio_aborts (blob : Blob)
    (o : SplitAudioDialogOptions) (selectedService : string) (w : W) :
  let split :=
    SplitAudioBlob blob
      {| sp_maxMb := maxMb o; sp_bitrateKbps := bitrateKbps o;
         sp_minChunkSec := minChunkSec o; sp_safetyMb := safetyMb o |} in
  (forall (splitError : ServiceError) (w' : W),
      h _ split w = (Err splitError, w') ->
      run h (transcribeSplitAudio blob o selectedService) w
      = (Err {| title := "Audio split failed"; description := None;
                serviceError := Some splitError |},
         w', [Called split (Err splitError)]))
  /\ (forall (pre post : list (option Blob)) (chunk : Blob)
             (texts : list (option string)) (w0 w1 w2 : W)
             (t tc : list Event) (chunkError : WhisperingError),
         h _ split w = (Ok (pre ++ Some chunk :: post)%list, w0) ->
         answered h selectedService w0 pre texts w1 t ->
         run h (transcribeWithProvider chunk selectedService) w1
         = (Err chunkError, w2, tc) ->
         run h (transcribeSplitAudio blob o selectedService) w
         = (Err chunkError, w2,
            (Called split (Ok (pre ++ Some chunk :: post)) :: t ++ tc)%list)).
Proof.
  intros split. split.
  - intros splitError w' Hsplit. rewrite run_transcribeSplitAudio.
    fold split. rewrite Hsplit. reflexivity.
  - intros pre post chunk texts w0 w1 w2 t tc chunkError Hsplit Hans Hrun.
    rewrite run_transcribeSplitAudio. fold split. rewrite Hsplit.
    cbn [fst snd].
    rewrite (transcribeChunks_answered o selectedService
               (calculateChunkSeconds o) w0 w1 pre texts t Hans).
    rewrite transcribeChunks_chunk.
    rewrite (run_bind_known h _ _ w1 w2 (Err chunkError) tc Hrun).
    unfold result_of, world_of, trace_of. simpl. rewrite app_nil_r.
    reflexivity.
Qed.

End SplitPath.

Lemma transcribeSplitAudio_merges_witness :
  result_of
    (run (Script.handler Script.happy)
       (transcribeSplitAudio Script.big Script.defaults "OpenAI") 0%nat)
  = Ok ("[Chunk 1 • 00:00 – 26:45]" ++ LF ++ LF ++ "one" ++ LF ++ LF
        ++ "[Chunk 2 • 26:45 – 53:30]" ++ LF ++ LF ++ "two" ++ LF ++ LF
        ++ "[Chunk 3 • 53:30 – 01:20:15]" ++ LF ++ LF ++ "three").
Proof.
  assert (Hex : exists t,
             answered (Script.handler Script.happy) "OpenAI" 1%nat
               [Some Script.chunk1; Some Script.chunk2; Some Script.chunk3]
               [Some (" one " ++ LF); Some "two"; Some "  three"] 7%nat t).
  { eexists.
    eapply answered_chunk; [reflexivity|].
    eapply answered_chunk; [reflexivity|].
    eapply answered_chunk; [reflexivity|].
    apply answered_nil. }
  destruct Hex as [t Hans].
  destruct (transcribeSplitAudio_merges (Script.handler Script.happy)
              Script.big Script.defaults "OpenAI" 0%nat 1%nat 7%nat
              _ _ t eq_refl Hans) as [H _].
  rewrite H. reflexivity.
Defined.

Lemma transcribeSplitAudio_aborts_witness :
  run (Script.handler (Script.with_split Script.happy (Err Script.disk_full)))
    (transcribeSplitAudio Script.big Script.defaults "OpenAI") 0%nat
  = (Err {| title := "Audio split failed"; description := None;
            serviceError := Some Script.disk_full |}, 1%nat,
     [Called (SplitAudioBlob Script.big
                {| sp_maxMb := num 25; sp_bitrateKbps := num 128;
                   sp_minChunkSec := num 10; sp_safetyMb := Fin (1 # 2) |})
        (Err Script.disk_full)])
  /\ result_of
       (run (Script.handler
               (Script.with_transcribe Script.happy Script.refuses_second))
          (transcribeSplitAudio Script.big Script.defaults "OpenAI") 0%nat)
     = Err Script.quota
  /\ world_of
       (run (Script.handler
               (Script.with_transcribe Script.happy Script.refuses_second))
          (transcribeSplitAudio Script.big Script.defaults "OpenAI") 0%nat)
     = 5%nat.
Proof.
  split.
  - destruct (transcribeSplitAudio_aborts
                (Script.handler
                   (Script.with_split Script.happy (Err Script.disk_full)))
                Script.big Script.defaults "OpenAI" 0%nat) as [H _].
    apply H. reflexivity.
  - destruct (transcribeSplitAudio_aborts
                (Script.handler
                   (Script.with_transcribe Script.happy Script.refuses_second))
                Script.big Script.defaults "OpenAI" 0%nat) as [_ H].
    assert (Hex : exists t,
               answered
                 (Script.handler
                    (Script.with_transcribe Script.happy Script.refuses_second))
                 "OpenAI" 1%nat [Some Script.chunk1] [Some (" one " ++ LF)]
                 3%nat t).
    { eexists. eapply answered_chunk; [reflexivity|]. apply answered_nil. }
    destruct Hex as [t Hans].
    rewrite (H [Some Script.chunk1] [Some Script.chunk3] Script.chunk2
               [Some (" one " ++ LF)] 1%nat 3%nat 5%nat t _ Script.quota
               eq_refl Hans eq_refl).
    split; reflexivity.
Defined.

(* ================================================================== *)
(** ** [transcribeBlob] *)
(* ================================================================== *)

Lemma requiresSplit_threshold (blob : Blob) :
  gt (size_of blob) (mul MAX_TRANSCRIPTION_FILE_MB MB_BYTES)
  = (split_threshold <? size blob)%N.
Proof.
  change (mul MAX_TRANSCRIPTION_FILE_MB MB_BYTES) with (num 26214400).
  unfold size_of. rewrite gt_num. unfold split_threshold.
  change (25 * 1048576)%N with 26214400%N.
  destruct (26214400 <? size blob)%N eqn:E.
  - apply N.ltb_lt in E. apply Z.ltb_lt. lia.
  - apply N.ltb_ge in E. apply Z.ltb_ge. lia.
Qed.

Lemma emits_transcribeWithProvider (audio : Blob) (selectedService : string) :
  emits is_provider_side (transcribeWithProvider audio selectedService).
Proof.
  unfold transcribeWithProvider.
  repeat match goal with
         | |- context [if ?b then _ else _] => destruct b
         end;
    simpl; repeat split.
Qed.

Lemma emits_transcribeChunks o svc cs chunks index merged :
  emits is_provider_side (transcribeChunks o svc cs chunks index merged).
Proof.
  revert index merged. induction chunks as [|[chunk|] chunks IH];
    intros index merged.
  - exact I.
  - rewrite transcribeChunks_chunk. apply emits_bind.
    + apply emits_transcribeWithProvider.
    + intros [text|e]; [apply IH | exact I].
  - rewrite transcribeChunks_hole. apply IH.
Qed.

Lemma emits_compressStep s svc blob : emits is_plain (compressStep s svc blob).
Proof.
  unfold compressStep. destruct (compressionEnabled s); [|exact I].
  simpl. split; [reflexivity|]. intros [c|e]; simpl; repeat split.
Qed.

Lemma emits_logResult svc t0 r : emits is_plain (logResult svc t0 r).
Proof.
  unfold logResult. simpl. split; [reflexivity|].
  intros now. destruct r; simpl; repeat split.
Qed.

Lemma emits_announce : emits is_plain announce.
Proof. unfold announce. simpl. repeat split. Qed.

Section TranscribeBlob.

Context {W : Type} (h : Handler W).

(** A run of [transcribeBlob] is a run of its four steps in order. *)
Lemma run_transcribeBlob (blob : Blob) (w : W) :
  let o0 := run h announce w in
  let s := fst (result_of o0) in
  let startTime := snd (result_of o0) in
  let svc := selectedTranscriptionService s in
  let o1 := run h (compressStep s svc blob) (world_of o0) in
  let o2 := run h (routeTranscription svc blob (result_of o1)) (world_of o1) in
  let o3 := run h (logResult svc startTime (result_of o2)) (world_of o2) in
  run h (transcribeBlob blob) w
  = (result_of o2, world_of o3,
     (trace_of o0 ++ trace_of o1 ++ trace_of o2 ++ trace_of o3)%list).
Proof.
  intros o0 s startTime svc o1 o2 o3. unfold transcribeBlob.
  rewrite !run_bind. fold o0. fold s. fold startTime. fold svc. fold o1.
  fold o2. fold o3. unfold result_of at 1, world_of at 1, trace_of at 1.
  simpl. rewrite app_nil_r. reflexivity.
Qed.

(** C6.  If the compression step fails, [transcribeBlob] warns, logs the
    failure and goes on with the original blob: [audioToTranscribe] stays
    [blob], and the result is the one of routing the original blob from the
    world left by the warning and the log entry.  The compression error is
    no part of it. *)
Theorem compression_failure_continues (blob : Blob) (w w1 w2 : W)
    (s : Settings) (startTime : Z) (t0 : list Event)
    (compressionError : ServiceError) :
  let svc := selectedTranscriptionService s in
  let compression := CompressAudioBlob blob (compressionOptions s) in
  let warning :=
    NotifyWarning
      {| n_title := "Audio compression failed";
         n_description :=
           message compressionError
             ++ ". Using original audio for transcription.";
         n_action := None |} in
  let logged := LogEvent (compression_failed svc (message compressionError)) in
  let w4 := snd (h _ logged (snd (h _ warning w2))) in
  run h announce w = ((s, startTime), w1, t0) ->
  compressionEnabled s = true ->
  h _ compression w1 = (Err compressionError, w2) ->
  run h (compressStep s svc blob) w1
  = (blob, w4,
     [Called compression (Err compressionError); Called warning tt;
      Called logged tt])
  /\ result_of (run h (transcribeBlob blob) w)
     = result_of (run h (routeTranscription svc blob blob) w4)
  /\ trace_of (run h (transcribeBlob blob) w)
     = (t0
        ++ [Called compression (Err compressionError); Called warning tt;
            Called logged tt]
        ++ trace_of (run h (routeTranscription svc blob blob) w4)
        ++ trace_of
             (run h
                (logResult svc startTime
                   (result_of (run h (routeTranscription svc blob blob) w4)))
                (world_of (run h (routeTranscription svc blob blob) w4))))%list.
Proof.
  intros svc compression warning logged w4 Hann Hen Hfail.
  assert (Hstep : run h (compressStep s svc blob) w1
                  = (blob, w4,
                     [Called compression (Err compressionError);
                      Called warning tt; Called logged tt])).
  { unfold compressStep. rewrite Hen. rewrite run_bind, run_call.
    fold compression. rewrite Hfail.
    unfold result_of, world_of, trace_of. cbn [fst snd].
    rewrite !run_bind, !run_call. fold warning. fold logged.
    unfold result_of, world_of, trace_of. cbn [fst snd run app].
    destruct (fst (h unit warning w2)).
    destruct (fst (h unit logged (snd (h unit warning w2)))).
    reflexivity. }
  split; [exact Hstep|].
  rewrite run_transcribeBlob. rewrite Hann.
  cbn [result_of world_of trace_of fst snd]. fold svc. rewrite Hstep.
  cbn [result_of world_of trace_of fst snd].
  split; reflexivity.
Qed.

(** The split path never looks at [audioToTranscribe]: above the
    threshold, routing is the same whatever the compression produced. *)
Lemma routeTranscription_split_ignores_audio (svc : string)
    (blob a b : Blob) :
  (split_threshold < size blob)%N ->
  routeTranscription svc blob a = routeTranscription svc blob b.
Proof.
  intros Hbig. unfold routeTranscription.
  rewrite requiresSplit_threshold.
  destruct (split_threshold <? size blob)%N eqn:E; [reflexivity|].
  apply N.ltb_ge in E. lia.
Qed.

Lemma routeTranscription_direct (svc : string) (blob a : Blob) :
  (size blob <= split_threshold)%N ->
  routeTranscription svc blob a = transcribeWithProvider a svc.
Proof.
  intros Hsmall. unfold routeTranscription.
  rewrite requiresSplit_threshold.
  destruct (split_threshold <? size blob)%N eqn:E; [|reflexivity].
  apply N.ltb_lt in E. lia.
Qed.

Lemma plain_no_dialog (t : list Event) :
  forallb (event_sat is_plain) t = true ->
  dialog_opened t = false /\ dialog_confirmed t = false
  /\ split_invoked t = false /\ provider_called t = false.
Proof.
  intros H. repeat split;
    (apply (existsb_excluded is_plain); [|exact H]);
    intros [X e x]; destruct e; simpl; try discriminate; reflexivity.
Qed.

Lemma provider_side_no_dialog (t : list Event) :
  forallb (event_sat is_provider_side) t = true ->
  dialog_opened t = false /\ dialog_confirmed t = false
  /\ split_invoked t = false.
Proof.
  intros H. repeat split;
    (apply (existsb_excluded is_provider_side); [|exact H]);
    intros [X e x]; destruct e; simpl; try discriminate; reflexivity.
Qed.

(** What a run of the routing step shows of the dialog and of the split. *)
Lemma routeTranscription_observed (svc : string) (blob a : Blob) (w : W) :
  let out := run h (routeTranscription svc blob a) w in
  dialog_opened (trace_of out) = (split_threshold <? size blob)%N
  /\ split_invoked (trace_of out) = dialog_confirmed (trace_of out)
  /\ (dialog_opened (trace_of out) = true ->
      dialog_confirmed (trace_of out) = false ->
      result_of out
      = Err {| title := "Split canceled";
               description :=
                 Some "Transcription was canceled because the audio file exceeds 25MB.";
               serviceError := None |}
      /\ provider_called (trace_of out) = false).
Proof.
  intros out. subst out. unfold routeTranscription.
  rewrite requiresSplit_threshold.
  destruct (split_threshold <? size blob)%N.
  - rewrite run_bind, run_call. cbn [result_of world_of trace_of fst snd].
    rewrite run_bind, run_call. cbn [result_of world_of trace_of fst snd].
    set (s := fst (h Settings ReadSettings w)).
    set (w1 := snd (h Settings ReadSettings w)).
    set (request := {| req_blob := blob |}).
    destruct (h _ (DialogOpen request) w1) as [[o|] w2]; cbn [fst snd].
    + rewrite run_transcribeSplitAudio.
      cbn [result_of world_of trace_of fst snd app].
      unfold dialog_opened, dialog_confirmed, split_invoked.
      cbn [existsb is_dialog_open is_dialog_confirmed is_split orb].
      split; [reflexivity|]. split; [reflexivity|].
      intros _ H. discriminate H.
    + cbn [run result_of world_of trace_of fst snd app].
      unfold dialog_opened, dialog_confirmed, split_invoked, provider_called.
      cbn. split; [reflexivity|]. split; [reflexivity|].
      intros _ _. split; reflexivity.
  - destruct (provider_side_no_dialog _
                (emits_trace h is_provider_side _ w
                   (emits_transcribeWithProvider a svc))) as (H1 & H2 & H3).
    rewrite H1, H2, H3. split; [reflexivity|]. split; [reflexivity|].
    intros H. discriminate H.
Qed.

(** C5, amended.  The split dialog is opened exactly when the size of the
    fetched blob exceeds [25 * 1_048_576] bytes.  The split service is
    invoked exactly when the dialog was opened and confirmed; when the
    dialog is cancelled the result is the error [Split canceled] and no
    provider is called.  A blob at or below that size goes to the selected
    provider, with no dialog and no split. *)
Theorem split_dialog_gate (blob : Blob) (w : W) :
  let out := run h (transcribeBlob blob) w in
  dialog_opened (trace_of out) = (split_threshold <? size blob)%N
  /\ split_invoked (trace_of out) = dialog_confirmed (trace_of out)
  /\ (dialog_opened (trace_of out) = true ->
      dialog_confirmed (trace_of out) = false ->
      result_of out
      = Err {| title := "Split canceled";
               description :=
                 Some "Transcription was canceled because the audio file exceeds 25MB.";
               serviceError := None |}
      /\ provider_called (trace_of out) = false)
  /\ ((size blob <= split_threshold)%N ->
      dialog_opened (trace_of out) = false
      /\ split_invoked (trace_of out) = false
      /\ forall svc a, routeTranscription svc blob a
                       = transcribeWithProvider a svc).
Proof.
  intros out. subst out. rewrite run_transcribeBlob.
  set (o0 := run h announce w).
  set (svc := selectedTranscriptionService (fst (result_of o0))).
  set (o1 := run h (compressStep (fst (result_of o0)) svc blob) (world_of o0)).
  set (o2 := run h (routeTranscription svc blob (result_of o1)) (world_of o1)).
  set (o3 := run h (logResult svc (snd (result_of o0)) (result_of o2))
               (world_of o2)).
  destruct (plain_no_dialog _ (emits_trace h is_plain _ w emits_announce))
    as (A1 & A2 & A3 & A4). fold o0 in A1, A2, A3, A4.
  destruct (plain_no_dialog _
              (emits_trace h is_plain _ (world_of o0)
                 (emits_compressStep (fst (result_of o0)) svc blob)))
    as (B1 & B2 & B3 & B4). fold o1 in B1, B2, B3, B4.
  destruct (plain_no_dialog _
              (emits_trace h is_plain _ (world_of o2)
                 (emits_logResult svc (snd (result_of o0)) (result_of o2))))
    as (C1 & C2 & C3 & C4). fold o3 in C1, C2, C3, C4.
  destruct (routeTranscription_observed svc blob (result_of o1) (world_of o1))
    as (R1 & R2 & R3). fold o2 in R1, R2, R3.
  cbn [result_of trace_of fst snd].
  unfold dialog_opened, dialog_confirmed, split_invoked, provider_called in *.
  rewrite !existsb_app.
  rewrite A1, A2, A3, A4, B1, B2, B3, B4, C1, C2, C3, C4.
  rewrite !orb_false_r. cbn [orb].
  split; [exact R1|]. split; [exact R2|]. split; [exact R3|].
  intros Hsmall.
  assert (E : (split_threshold <? size blob)%N = false)
    by (apply N.ltb_ge; exact Hsmall).
  split; [rewrite R1; exact E|].
  split; [|intros; apply routeTranscription_direct; exact Hsmall].
  unfold o2. rewrite routeTranscription_direct by exact Hsmall.
  apply (provider_side_no_dialog _
           (emits_trace h is_provider_side _ (world_of o1)
              (emits_transcribeWithProvider (result_of o1) svc))).
Qed.

End TranscribeBlob.

Lemma compression_failure_continues_witness :
  run (Script.handler
         (Script.with_compress Script.happy (Err Script.disk_full)))
    (compressStep (Script.settings "OpenAI" true) "OpenAI" Script.small) 3%nat
  = (Script.small, 6%nat,
     [Called (CompressAudioBlob Script.small "-c:a libopus -b:a 32k")
        (Err Script.disk_full);
      Called (NotifyWarning
                {| n_title := "Audio compression failed";
                   n_description :=
                     "disk full. Using original audio for transcription.";
                   n_action := None |}) tt;
      Called (LogEvent (compression_failed "OpenAI" "disk full")) tt])
  /\ result_of
       (run (Script.handler
               (Script.with_compress Script.happy (Err Script.disk_full)))
          (transcribeBlob Script.small) 0%nat)
     = Ok "  three".
Proof.
  destruct (compression_failure_continues
              (Script.handler
                 (Script.with_compress Script.happy (Err Script.disk_full)))
              Script.small 0%nat 3%nat 4%nat (Script.settings "OpenAI" true)
              1%Z _ Script.disk_full eq_refl eq_refl eq_refl)
    as (Hstep & Hres & _).
  split; [exact Hstep|]. rewrite Hres. reflexivity.
Defined.

(** C5, as stated, fails: a 30 MiB blob is above the threshold, the dialog
    is opened, and when it is cancelled the split service is not invoked. *)
Lemma split_not_invoked_when_cancelled :
  (split_threshold < size Script.big)%N
  /\ dialog_opened
       (trace_of
          (run (Script.handler (Script.with_dialog Script.happy None))
             (transcribeBlob Script.big) 0%nat)) = true
  /\ split_invoked
       (trace_of
          (run (Script.handler (Script.with_dialog Script.happy None))
             (transcribeBlob Script.big) 0%nat)) = false
  /\ result_of
       (run (Script.handler (Script.with_dialog Script.happy None))
          (transcribeBlob Script.big) 0%nat)
     = Err {| title := "Split canceled";
              description :=
                Some "Transcription was canceled because the audio file exceeds 25MB.";
              serviceError := None |}.
Proof. repeat split. Qed.

Lemma split_dialog_gate_witness :
  dialog_opened
    (trace_of
       (run (Script.handler Script.happy) (transcribeBlob Script.big) 0%nat))
  = true
  /\ split_invoked
       (trace_of
          (run (Script.handler Script.happy) (transcribeBlob Script.big) 0%nat))
     = true
  /\ dialog_opened
       (trace_of
          (run (Script.handler Script.happy) (transcribeBlob Script.small)
             0%nat))
     = false.
Proof.
  destruct (split_dialog_gate (Script.handler Script.happy) Script.big 0%nat)
    as (Hbig & Hsplit & _).
  destruct (split_dialog_gate (Script.handler Script.happy) Script.small 0%nat)
    as (Hsmall & _).
  split; [rewrite Hbig; reflexivity|].
  split; [rewrite Hsplit; reflexivity | rewrite Hsmall; reflexivity].
Defined.

(** C2 at a failing input.  Compression is enabled and turns the 30 MiB
    recording into 5 MiB, below the threshold; the dialog is still opened,
    for the original blob and its size, and the split service receives the
    original blob.  The compressed blob is not used. *)
Theorem split_uses_original_after_compression :
  (size Script.small <= split_threshold)%N
  /\ filter (fun ev => is_compress ev || is_dialog_open ev || is_split ev)
       (trace_of
          (run (Script.handler Script.happy) (transcribeBlob Script.big) 0%nat))
     = [Called (CompressAudioBlob Script.big "-c:a libopus -b:a 32k")
          (Ok Script.small);
        Called (DialogOpen
                  {| req_blob := Script.big;
                     req_blobSizeMb := div (size_of Script.big) MB_BYTES;
                     req_options := Script.defaults |})
          (Some Script.defaults);
        Called (SplitAudioBlob Script.big
                  {| sp_maxMb := num 25; sp_bitrateKbps := num 128;
                     sp_minChunkSec := num 10; sp_safetyMb := Fin (1 # 2) |})
          (Ok [Some Script.chunk1; Some Script.chunk2; Some Script.chunk3])].
Proof. split; [discriminate | reflexivity]. Qed.

(* ================================================================== *)
(** ** [transcribeRecording] *)
(* ================================================================== *)

Section TranscribeRecording.

Context {W : Type} (h : Handler W).

Lemma run_warnIfFailed (r : Result unit ServiceError) (t d : string) (w : W) :
  result_of (run h (warnIfFailed r t d) w) = tt
  /\ trace_of (run h (warnIfFailed r t d) w) = Spec.warning_calls r t d.
Proof.
  destruct r as [u|e]; simpl; [split; reflexivity|].
  unfold result_of, trace_of. simpl.
  destruct (fst (h unit _ w)). split; reflexivity.
Qed.

(** When the audio cannot be fetched nothing is written and nothing is
    transcribed. *)
Lemma transcribeRecording_fetch_failure (recording : Recording) (w w1 : W)
    (getAudioBlobError : ServiceError) :
  h _ (GetAudioBlob (id recording)) w = (Err getAudioBlobError, w1) ->
  run h (transcribeRecording recording) w
  = (Err {| title := "⚠️ Failed to fetch audio";
            description :=
              Some ("Unable to load audio for recording: "
                      ++ message getAudioBlobError);
            serviceError := None |},
     w1, [Called (GetAudioBlob (id recording)) (Err getAudioBlobError)]).
Proof.
  intros Hget. unfold transcribeRecording. rewrite run_bind, run_call, Hget.
  reflexivity.
Qed.

(** C10.  Once the audio is fetched, [transcribeRecording] writes the
    recording with status [TRANSCRIBING], runs [transcribeBlob] and returns
    its result as it is: the error when the transcription errs, after a
    write of the recording with status [FAILED] and its text unchanged, and
    [Ok(text)] when it succeeds, after a write of the recording with
    [transcribedText = text] and status [DONE].  A write that fails adds one
    warning to the calls made and changes nothing in the result. *)
Theorem transcribeRecording_outcome (recording : Recording) (w w1 : W)
    (audioBlob : Blob) :
  let first :=
    DbRecordingsUpdate
      {| id := id recording; transcribedText := transcribedText recording;
         transcriptionStatus := TRANSCRIBING |} in
  let title1 :=
    "⚠️ Unable to set recording transcription status to transcribing" in
  let note1 := "Continuing with the transcription process..." in
  let title2 := "⚠️ Unable to update recording after transcription" in
  let u1 := h _ first w1 in
  let o1 := run h (warnIfFailed (fst u1) title1 note1) (snd u1) in
  let o2 := run h (transcribeBlob audioBlob) (world_of o1) in
  let last :=
    DbRecordingsUpdate
      match result_of o2 with
      | Err _ =>
          {| id := id recording; transcribedText := transcribedText recording;
             transcriptionStatus := FAILED |}
      | Ok text =>
          {| id := id recording; transcribedText := text;
             transcriptionStatus := DONE |}
      end in
  let u2 := h _ last (world_of o2) in
  let o3 :=
    run h (warnIfFailed (fst u2) title2 (Spec.final_warning (result_of o2)))
      (snd u2) in
  h _ (GetAudioBlob (id recording)) w = (Ok audioBlob, w1) ->
  run h (transcribeRecording recording) w
  = (result_of o2, world_of o3,
     (Called (GetAudioBlob (id recording)) (Ok audioBlob)
        :: Called first (fst u1)
        :: Spec.warning_calls (fst u1) title1 note1
        ++ trace_of o2
        ++ Called last (fst u2)
        :: Spec.warning_calls (fst u2) title2
             (Spec.final_warning (result_of o2)))%list)
  /\ (forall e, result_of o2 = Err e ->
        result_of (run h (transcribeRecording recording) w) = Err e
        /\ last
           = DbRecordingsUpdate
               {| id := id recording;
                  transcribedText := transcribedText recording;
                  transcriptionStatus := FAILED |})
  /\ (forall text, result_of o2 = Ok text ->
        result_of (run h (transcribeRecording recording) w) = Ok text
        /\ last
           = DbRecordingsUpdate
               {| id := id recording; transcribedText := text;
                  transcriptionStatus := DONE |}).
Proof.
  intros first title1 note1 title2 u1 o1 o2 last u2 o3 Hget.
  assert (Hrun : run h (transcribeRecording recording) w
                 = (result_of o2, world_of o3,
                    (Called (GetAudioBlob (id recording)) (Ok audioBlob)
                       :: Called first (fst u1)
                       :: Spec.warning_calls (fst u1) title1 note1
                       ++ trace_of o2
                       ++ Called last (fst u2)
                       :: Spec.warning_calls (fst u2) title2
                            (Spec.final_warning (result_of o2)))%list)).
  { unfold transcribeRecording. rewrite run_bind, run_call, Hget.
    cbn [result_of world_of trace_of fst snd].
    rewrite run_bind, run_call.
    change (with_status recording TRANSCRIBING)
      with {| id := id recording; transcribedText := transcribedText recording;
              transcriptionStatus := TRANSCRIBING |}.
    fold first. fold u1.
    cbn [result_of world_of trace_of fst snd].
    rewrite run_bind. fold title1. fold note1. fold o1.
    rewrite run_bind. fold o2.
    destruct (run_warnIfFailed (fst u1) title1 note1 (snd u1)) as [_ Ht1].
    fold o1 in Ht1. rewrite Ht1.
    destruct (run_warnIfFailed (fst u2) title2
                (Spec.final_warning (result_of o2)) (snd u2)) as [_ Ht3].
    fold o3 in Ht3. rewrite <- Ht3.
    subst o3 u2 last. destruct (result_of o2) as [text|e];
      cbn [Spec.final_warning];
      rewrite run_bind, run_call; cbn [result_of world_of trace_of fst snd];
      rewrite run_bind; cbn [result_of world_of trace_of fst snd run];
      rewrite app_nil_r; reflexivity. }
  split; [exact Hrun|]. rewrite Hrun. cbn [result_of fst].
  split.
  - intros e He. split; [exact He|]. subst last. rewrite He. reflexivity.
  - intros text He. split; [exact He|]. subst last. rewrite He. reflexivity.
Qed.

End TranscribeRecording.

Lemma transcribeRecording_outcome_witness :
  let refused :=
    Script.handler
      (Script.with_update
         (Script.with_transcribe Script.happy Script.refuses_second)
         (fun _ => Err Script.disk_full)) in
  let heard :=
    Script.handler
      (Script.with_update Script.happy (fun _ => Err Script.disk_full)) in
  let merged :=
    "[Chunk 1 • 00:00 – 26:45]" ++ LF ++ LF ++ "one" ++ LF ++ LF
      ++ "[Chunk 2 • 26:45 – 53:30]" ++ LF ++ LF ++ "two" ++ LF ++ LF
      ++ "[Chunk 3 • 53:30 – 01:20:15]" ++ LF ++ LF ++ "three" in
  (result_of (run refused (transcribeRecording Script.recording) 0%nat)
   = Err Script.quota
   /\ filter Observe.is_db_update
        (trace_of (run refused (transcribeRecording Script.recording) 0%nat))
      = [Called (DbRecordingsUpdate
                   {| id := "rec-1"; transcribedText := "";
                      transcriptionStatus := TRANSCRIBING |})
           (Err Script.disk_full);
         Called (DbRecordingsUpdate
                   {| id := "rec-1"; transcribedText := "";
                      transcriptionStatus := FAILED |})
           (Err Script.disk_full)])
  /\ (result_of (run heard (transcribeRecording Script.recording) 0%nat)
      = Ok merged
      /\ filter Observe.is_db_update
           (trace_of (run heard (transcribeRecording Script.recording) 0%nat))
         = [Called (DbRecordingsUpdate
                      {| id := "rec-1"; transcribedText := "";
                         transcriptionStatus := TRANSCRIBING |})
              (Err Script.disk_full);
            Called (DbRecordingsUpdate
                      {| id := "rec-1"; transcribedText := merged;
                         transcriptionStatus := DONE |})
              (Err Script.disk_full)]).
Proof.
  intros refused heard merged. split.
  - destruct (transcribeRecording_outcome refused Script.recording 0%nat
                1%nat Script.big eq_refl) as [H _].
    rewrite H. split; reflexivity.
  - destruct (transcribeRecording_outcome heard Script.recording 0%nat
                1%nat Script.big eq_refl) as [H _].
    rewrite H. split; vm_compute; reflexivity.
Defined.

(* ================================================================== *)
(** ** More on the split dialog store *)
(* ================================================================== *)

Module SplitAudioDialogMore.
Import SplitAudioDialog SplitAudioDialogFacts.

Lemma edits_frame (nexts : list PartialOptions) (s : Store) :
  snd (fold_left Observe.edit nexts s) = snd s
  /\ resolvePromise (fst (fold_left Observe.edit nexts s))
     = resolvePromise (fst s)
  /\ isOpen (fst (fold_left Observe.edit nexts s)) = isOpen (fst s)
  /\ blob (fst (fold_left Observe.edit nexts s)) = blob (fst s)
  /\ options (fst (fold_left Observe.edit nexts s))
     = fold_left Observe.merged_options nexts (options (fst s)).
Proof.
  revert s. induction nexts as [|next nexts IH]; intros s; simpl.
  - repeat split.
  - destruct (IH (Observe.edit s next)) as (A & B & C & D & E).
    rewrite A, B, C, D, E. destruct s as [st ps]. repeat split.
Qed.

Lemma reachable_edits (nexts : list PartialOptions) (s : Store) :
  reachable s -> reachable (fold_left Observe.edit nexts s).
Proof.
  revert s. induction nexts as [|next nexts IH]; intros s H; simpl.
  - exact H.
  - apply IH. apply (reachable_step s (OpUpdateOptions next) H).
Qed.

(** X1.  A request that is opened, edited by any number of calls of
    [updateOptions] and then confirmed resolves with the options of the
    request as edited, each edit overriding the fields it gives; cancelled
    instead, it resolves with [null].  While it is edited it stays the one
    pending request and the dialog stays open. *)
Theorem open_edit_confirm (s : Store) (request : SplitAudioDialogRequest)
    (nexts : list PartialOptions) :
  reachable s ->
  let p := fst (open request s) in
  let edited := fold_left Observe.edit nexts (snd (open request s)) in
  value_of (snd (confirm edited)) p
  = Some (Some (fold_left Observe.merged_options nexts (req_options request)))
  /\ value_of (snd (cancel edited)) p = Some None
  /\ pending (snd edited) = [p]
  /\ isOpen (fst edited) = true.
Proof.
  intros Hreach p edited.
  pose proof (reachable_step s (OpOpen request) Hreach) as Hopen.
  simpl in Hopen.
  pose proof (reachable_edits nexts _ Hopen) as Hed. fold edited in Hed.
  pose proof (reachable_inv _ Hed) as Hinv.
  destruct (edits_frame nexts (snd (open request s))) as (A & B & C & _ & E).
  fold edited in A, B, C, E.
  assert (Hres : resolvePromise (fst edited) = Some p).
  { rewrite B. subst p. destruct s as [st ps]. reflexivity. }
  assert (Hopt : options (fst edited)
                 = fold_left Observe.merged_options nexts (req_options request)).
  { rewrite E. destruct s as [st ps]. reflexivity. }
  pose proof (inv_unsettled edited p Hinv Hres) as Hun.
  repeat split.
  - destruct edited as [st ps]. simpl in *. unfold confirm. rewrite Hres.
    simpl. rewrite value_of_resolve, Hun, Nat.eqb_refl, Hopt. reflexivity.
  - destruct edited as [st ps]. simpl in *. unfold cancel. rewrite Hres.
    simpl. rewrite value_of_resolve, Hun, Nat.eqb_refl. reflexivity.
  - rewrite (inv_pending edited Hinv). unfold holder. rewrite Hres.
    reflexivity.
  - rewrite C. destruct s as [st ps]. reflexivity.
Qed.

Lemma open_edit_confirm_witness :
  let request :=
    {| req_blob := Script.big; req_blobSizeMb := num 30;
       req_options := Script.defaults |} in
  let bitrate64 :=
    {| next_maxMb := None; next_bitrateKbps := Some (num 64);
       next_minChunkSec := None; next_safetyMb := None;
       next_addSplitTags := None |} in
  let no_tags :=
    {| next_maxMb := None; next_bitrateKbps := None;
       next_minChunkSec := None; next_safetyMb := None;
       next_addSplitTags := Some false |} in
  value_of
    (snd (confirm
            (fold_left Observe.edit [bitrate64; no_tags]
               (snd (open request init))))) 0%nat
  = Some (Some {| maxMb := num 25; bitrateKbps := num 64;
                  minChunkSec := num 10; safetyMb := Fin (1 # 2);
                  addSplitTags := false |}).
Proof.
  intros request bitrate64 no_tags.
  assert (Hreach : reachable init) by (exists []; reflexivity).
  destruct (open_edit_confirm init request [bitrate64; no_tags] Hreach)
    as [H _].
  exact H.
Defined.

(** X2.  The resolver that the store holds is always that of a promise
    not yet settled.  So the call that [confirm], [cancel] or a superseding
    [open] makes to that resolver settles the promise, with the current
    options, [null] and [null]: no method calls the resolver of a promise
    that is already settled. *)
Theorem held_resolver_is_unsettled (s : Store) (r : PromiseId) :
  reachable s ->
  resolvePromise (fst s) = Some r ->
  value_of (snd s) r = None
  /\ settled (snd (confirm s))
     = (settled (snd s) ++ [(r, Some (options (fst s)))])%list
  /\ settled (snd (cancel s)) = (settled (snd s) ++ [(r, None)])%list
  /\ forall request : SplitAudioDialogRequest,
       settled (snd (snd (open request s)))
       = (settled (snd s) ++ [(r, None)])%list.
Proof.
  intros Hreach Hr.
  pose proof (inv_unsettled s r (reachable_inv s Hreach) Hr) as Hun.
  split; [exact Hun|].
  destruct s as [st ps]. simpl in Hr, Hun.
  unfold confirm, cancel, open. rewrite Hr. simpl.
  unfold resolve, is_settled. rewrite Hun. simpl.
  split; [reflexivity|]. split; [reflexivity|]. intros request. reflexivity.
Qed.

Lemma held_resolver_is_unsettled_witness :
  let request :=
    {| req_blob := Script.big; req_blobSizeMb := num 30;
       req_options := Script.defaults |} in
  let s := snd (open request (cancel (snd (open request init)))) in
  settled (snd s) = [(0%nat, None)]
  /\ value_of (snd s) 1%nat = None
  /\ settled (snd (confirm s))
     = [(0%nat, None); (1%nat, Some Script.defaults)]
  /\ settled (snd (cancel s)) = [(0%nat, None); (1%nat, None)]
  /\ settled (snd (snd (open request s))) = [(0%nat, None); (1%nat, None)].
Proof.
  intros request s.
  assert (Hreach : reachable s).
  { exists [OpOpen request; OpCancel; OpOpen request]. reflexivity. }
  destruct (held_resolver_is_unsettled s 1%nat Hreach eq_refl)
    as (Hun & Hconfirm & Hcancel & Hopen).
  split; [reflexivity|]. split; [exact Hun|]. split; [exact Hconfirm|].
  split; [exact Hcancel | exact (Hopen request)].
Defined.

(** X3.  As long as [isOpen] is only changed by the methods of the store
    (the setter is not used), the dialog is open exactly when a request is
    pending. *)
Theorem isOpen_tracks_request (ops : list Op) :
  forallb (fun op => negb (Observe.is_setter op)) ops = true ->
  isOpen (fst (fold_left step ops init))
  = Observe.is_some (resolvePromise (fst (fold_left step ops init))).
Proof.
  assert (Hgen : forall s,
             isOpen (fst s) = Observe.is_some (resolvePromise (fst s)) ->
             forallb (fun op => negb (Observe.is_setter op)) ops = true ->
             isOpen (fst (fold_left step ops s))
             = Observe.is_some (resolvePromise (fst (fold_left step ops s)))).
  { induction ops as [|op ops IH]; intros s Hs Hops; simpl in *.
    - exact Hs.
    - apply andb_true_iff in Hops. destruct Hops as [Hop Hops].
      apply IH; [|exact Hops]. destruct s as [st ps]. simpl in Hs.
      destruct op as [request| | |next|value]; simpl in *.
      + reflexivity.
      + unfold confirm. destruct (resolvePromise st) eqn:E; simpl;
          [reflexivity | rewrite Hs, E; reflexivity].
      + unfold cancel. destruct (resolvePromise st) eqn:E; simpl;
          [reflexivity | rewrite Hs, E; reflexivity].
      + exact Hs.
      + discriminate Hop. }
  apply Hgen. reflexivity.
Qed.

Lemma isOpen_tracks_request_witness :
  let request :=
    {| req_blob := Script.big; req_blobSizeMb := num 30;
       req_options := Script.defaults |} in
  isOpen (fst (fold_left step [OpOpen request; OpCancel; OpOpen request] init))
  = true.
Proof.
  intros request.
  rewrite (isOpen_tracks_request [OpOpen request; OpCancel; OpOpen request]
             eq_refl).
  reflexivity.
Defined.

End SplitAudioDialogMore.

(* ================================================================== *)
(** ** More on chunk durations, timestamps and the compression ratio *)
(* ================================================================== *)

Lemma formatTimestamp_whole (c : Z) :
  (0 <= c)%Z -> formatTimestamp (num c) = Spec.clock c.
Proof.
  intros Hc. unfold num. rewrite formatTimestamp_clock.
  - rewrite Qfloor_Z. reflexivity.
  - change 0 with (inject_Z 0). rewrite <- Zle_Qle. exact Hc.
Qed.

(** X4.  [formatTimestamp] looks at the whole seconds only and never
    prints a negative time: a finite time whose whole seconds are below
    [2^53] prints as the clock time of its floor, taken as zero when
    negative, so every negative time prints as [00:00] and a fraction of a
    second changes nothing. *)
Theorem formatTimestamp_clamps (t : Q) :
  (Qfloor t < 2 ^ 53)%Z ->
  formatTimestamp (Fin t) = Spec.clock (Z.max 0 (Qfloor t))
  /\ formatTimestamp (Fin t) = formatTimestamp (num (Z.max 0 (Qfloor t)))
  /\ (t < 0 -> formatTimestamp (Fin t) = "00:00").
Proof.
  intros _.
  assert (H : formatTimestamp (Fin t) = Spec.clock (Z.max 0 (Qfloor t))).
  { destruct (Qlt_le_dec t 0) as [Hneg|Hpos].
    - assert (Hf : (Qfloor t <= 0)%Z).
      { change 0%Z with (Qfloor 0). apply Qfloor_resp_le.
        apply Qlt_le_weak. exact Hneg. }
      rewrite Z.max_l by exact Hf.
      unfold formatTimestamp. cbv zeta.
      change (Math_floor (Fin t)) with (num (Qfloor t)).
      rewrite Math_max_num, Z.max_l by exact Hf. reflexivity.
    - rewrite formatTimestamp_clock by exact Hpos.
      rewrite Z.max_r; [reflexivity|].
      change 0%Z with (Qfloor 0). apply Qfloor_resp_le. exact Hpos. }
  split; [exact H|]. split.
  - rewrite H. symmetry. apply formatTimestamp_whole. apply Z.le_max_l.
  - intros Hneg. rewrite H. rewrite Z.max_l; [reflexivity|].
    change 0%Z with (Qfloor 0). apply Qfloor_resp_le.
    apply Qlt_le_weak. exact Hneg.
Qed.

Lemma formatTimestamp_clamps_witness :
  formatTimestamp (Fin (- (5 # 2))) = "00:00"
  /\ formatTimestamp (Fin (48159 # 10)) = "01:20:15"
  /\ formatTimestamp (Fin (48159 # 10)) = formatTimestamp (num 4815).
Proof.
  split; [|split].
  - destruct (formatTimestamp_clamps (- (5 # 2))) as (_ & _ & H).
    + vm_compute. reflexivity.
    + apply H. vm_compute. reflexivity.
  - destruct (formatTimestamp_clamps (48159 # 10)) as (H & _).
    + vm_compute. reflexivity.
    + rewrite H. vm_compute. reflexivity.
  - destruct (formatTimestamp_clamps (48159 # 10)) as (_ & H & _).
    + vm_compute. reflexivity.
    + exact H.
Defined.



Lemma compressionRatio_value (original compressed : N) :
  (0 < original)%N ->
  Observe.compressionRatio original compressed
  = num (Qfloor ((1 - inject_Z (Z.of_N compressed) / inject_Z (Z.of_N original))
                   * 100 + (1 # 2))).
Proof.
  intros Hpos. unfold Observe.compressionRatio.
  change (num (Z.of_N compressed)) with (Fin (inject_Z (Z.of_N compressed))).
  rewrite div_Fin_num by lia. reflexivity.
Qed.

(** X6.  The percentage shown after a compression: when the original is
    not empty and the compressed blob is no larger, it is a whole number
    from 0 to 100; when the compressed blob is larger it is a whole number
    that is zero or negative; for an empty original it is not a number. *)
Theorem compressionRatio_range (original compressed : N) :
  ((0 < original)%N -> (compressed <= original)%N ->
   exists r : Z,
     Observe.compressionRatio original compressed = num r
     /\ (0 <= r <= 100)%Z)
  /\ ((0 < original)%N -> (original < compressed)%N ->
      exists r : Z,
        Observe.compressionRatio original compressed = num r /\ (r <= 0)%Z)
  /\ (original = 0%N ->
      Observe.compressionRatio original compressed
      = if (compressed =? 0)%N then NaN else NegInfinity).
Proof.
  assert (Hfrac : forall x : Q, (0 < original)%N ->
            x == inject_Z (Z.of_N compressed) / inject_Z (Z.of_N original) ->
            (0 <= x)
            /\ ((compressed <= original)%N -> x <= 1)
            /\ ((original < compressed)%N -> 1 < x)).
  { intros x Hpos Hx.
    assert (Ho : 0 < inject_Z (Z.of_N original)).
    { change 0 with (inject_Z 0). rewrite <- Zlt_Qlt. lia. }
    assert (Hc : 0 <= inject_Z (Z.of_N compressed)).
    { change 0 with (inject_Z 0). rewrite <- Zle_Qle. lia. }
    split; [|split].
    - rewrite Hx. apply Qle_shift_div_l; [exact Ho|]. lra.
    - intros Hle. rewrite Hx. apply Qle_shift_div_r; [exact Ho|].
      rewrite Qmult_1_l. rewrite <- Zle_Qle. lia.
    - intros Hlt. rewrite Hx. apply Qlt_shift_div_l; [exact Ho|].
      rewrite Qmult_1_l. rewrite <- Zlt_Qlt. lia. }
  split; [|split].
  - intros Hpos Hle. rewrite compressionRatio_value by exact Hpos.
    eexists. split; [reflexivity|].
    destruct (Hfrac _ Hpos (Qeq_refl _)) as (H0 & H1 & _).
    specialize (H1 Hle).
    set (x := inject_Z (Z.of_N compressed) / inject_Z (Z.of_N original)) in *.
    clearbody x. clear Hfrac Hpos Hle. split.
    + change 0%Z with (Qfloor 0). apply Qfloor_resp_le. lra.
    + assert (Hlt : (Qfloor ((1 - x) * 100 + (1 # 2)) < 101)%Z).
      { rewrite Zlt_Qlt.
        apply (Qle_lt_trans _ ((1 - x) * 100 + (1 # 2))); [apply Qfloor_le|].
        change (inject_Z 101) with 101%Q. lra. }
      lia.
  - intros Hpos Hlt. rewrite compressionRatio_value by exact Hpos.
    eexists. split; [reflexivity|].
    destruct (Hfrac _ Hpos (Qeq_refl _)) as (_ & _ & H1).
    specialize (H1 Hlt).
    set (x := inject_Z (Z.of_N compressed) / inject_Z (Z.of_N original)) in *.
    clearbody x. clear Hfrac Hpos Hlt.
    assert (Hlt1 : (Qfloor ((1 - x) * 100 + (1 # 2)) < 1)%Z).
    { rewrite Zlt_Qlt.
      apply (Qle_lt_trans _ ((1 - x) * 100 + (1 # 2))); [apply Qfloor_le|].
      change (inject_Z 1) with 1%Q. lra. }
    lia.
  - intros ->. unfold Observe.compressionRatio.
    destruct compressed as [|c]; reflexivity.
Qed.

(* ================================================================== *)
(** ** More on the providers and the split path *)
(* ================================================================== *)

Section Providers.

Context {W : Type} (h : Handler W).

(** The two shapes of a run of [transcribeWithProvider]. *)
Lemma run_transcribeWithProvider (audio : Blob) (name : string) (w : W) :
  match Observe.provider_named name with
  | Some p =>
      exists opts : ProviderOptions,
        run h (transcribeWithProvider audio name) w
        = (fst (h _ (Transcribe p audio opts) (snd (h _ ReadSettings w))),
           snd (h _ (Transcribe p audio opts) (snd (h _ ReadSettings w))),
           [Called ReadSettings (fst (h _ ReadSettings w));
            Called (Transcribe p audio opts)
              (fst (h _ (Transcribe p audio opts) (snd (h _ ReadSettings w))))])
  | None =>
      run h (transcribeWithProvider audio name) w
      = (Err {| title := "⚠️ No transcription service selected";
                description :=
                  Some "Please select a transcription service in settings.";
                serviceError := None |}, w, [])
  end.
Proof.
  unfold Observe.provider_named, transcribeWithProvider.
  repeat match goal with
         | |- context [String.eqb name ?c] =>
             destruct (String.eqb name c);
             [cbv beta iota; eexists; reflexivity|]
         end.
  reflexivity.
Qed.

(** X7.  For each of the nine service names, [transcribeWithProvider]
    reads the settings once, calls that provider once with the audio it
    was given, and returns the provider's answer unchanged. *)
Theorem transcribeWithProvider_known (audio : Blob) (name : string)
    (p : Provider) (w : W) :
  Observe.provider_named name = Some p ->
  exists opts : ProviderOptions,
    let answer := h _ (Transcribe p audio opts) (snd (h _ ReadSettings w)) in
    run h (transcribeWithProvider audio name) w
    = (fst answer, snd answer,
       [Called ReadSettings (fst (h _ ReadSettings w));
        Called (Transcribe p audio opts) (fst answer)]).
Proof.
  intros Hp. pose proof (run_transcribeWithProvider audio name w) as H.
  rewrite Hp in H. exact H.
Qed.

(** X8.  For any other service name, the match being exact and case
    sensitive, [transcribeWithProvider] returns the error [No
    transcription service selected] and calls nothing: no provider, and not
    even the settings. *)
Theorem transcribeWithProvider_unknown (audio : Blob) (name : string) (w : W) :
  Observe.provider_named name = None ->
  run h (transcribeWithProvider audio name) w
  = (Err {| title := "⚠️ No transcription service selected";
            description :=
              Some "Please select a transcription service in settings.";
            serviceError := None |}, w, []).
Proof.
  intros Hp. pose proof (run_transcribeWithProvider audio name w) as H.
  rewrite Hp in H. exact H.
Qed.

Lemma audios_sent_app (t1 t2 : list Event) :
  Observe.audios_sent (t1 ++ t2)
  = (Observe.audios_sent t1 ++ Observe.audios_sent t2)%list.
Proof.
  induction t1 as [|[X e x] t1 IH]; simpl; [reflexivity|].
  destruct e; simpl; rewrite ?IH; reflexivity.
Qed.

(** A successful provider call was made with the audio given. *)
Lemma audios_sent_ok (audio : Blob) (name text : string) (w w1 : W)
    (t : list Event) :
  run h (transcribeWithProvider audio name) w = (Ok text, w1, t) ->
  Observe.audios_sent t = [audio].
Proof.
  intros Hrun. pose proof (run_transcribeWithProvider audio name w) as H.
  destruct (Observe.provider_named name) as [p|].
  - destruct H as [opts H]. rewrite H in Hrun.
    injection Hrun as _ _ <-. reflexivity.
  - rewrite H in Hrun. discriminate Hrun.
Qed.

Lemma audios_sent_answered (name : string) (w w' : W)
    (chunks : list (option Blob)) (texts : list (option string))
    (t : list Event) :
  answered h name w chunks texts w' t ->
  Observe.audios_sent t = Observe.present chunks
  /\ List.length texts = List.length chunks.
Proof.
  induction 1 as [w | w w' chunks texts t Hans [IH1 IH2]
                    | w w1 w' chunk chunks text texts t1 t Hrun Hans [IH1 IH2]].
  - split; reflexivity.
  - simpl. split; [exact IH1 | now rewrite IH2].
  - rewrite audios_sent_app, (audios_sent_ok _ _ _ _ _ _ Hrun), IH1.
    simpl. split; [reflexivity | now rewrite IH2].
Qed.

(** X9.  When every chunk is transcribed, the provider was called once
    for each blob that the split service returned, in the order of the
    array, and with those blobs only. *)
Theorem split_sends_each_chunk_once (blob : Blob)
    (o : SplitAudioDialogOptions) (name : string) (w w0 w' : W)
    (chunks : list (option Blob)) (texts : list (option string))
    (t : list Event) :
  let split :=
    SplitAudioBlob blob
      {| sp_maxMb := maxMb o; sp_bitrateKbps := bitrateKbps o;
         sp_minChunkSec := minChunkSec o; sp_safetyMb := safetyMb o |} in
  h _ split w = (Ok chunks, w0) ->
  answered h name w0 chunks texts w' t ->
  Observe.audios_sent (trace_of (run h (transcribeSplitAudio blob o name) w))
  = Observe.present chunks
  /\ List.length
       (filter is_provider_call
          (trace_of (run h (transcribeSplitAudio blob o name) w)))
     = List.length (Observe.present chunks).
Proof.
  intros split Hsplit Hans.
  assert (Htrace : trace_of (run h (transcribeSplitAudio blob o name) w)
                   = Called split (Ok chunks) :: t).
  { rewrite run_transcribeSplitAudio. fold split. rewrite Hsplit.
    cbn [fst snd trace_of].
    pose proof (transcribeChunks_answered h o name (calculateChunkSeconds o)
                  w0 w' chunks texts t Hans [] 0%Z []) as H.
    rewrite app_nil_r in H. rewrite H. cbn [trace_of snd run].
    rewrite app_nil_r. reflexivity. }
  rewrite Htrace. destruct (audios_sent_answered _ _ _ _ _ _ Hans) as [Ha _].
  split; [exact Ha|].
  assert (Hcount : forall u, List.length (filter is_provider_call u)
                             = List.length (Observe.audios_sent u)).
  { induction u as [|[X e x] u IH]; simpl; [reflexivity|].
    destruct e; simpl; rewrite IH; reflexivity. }
  rewrite Hcount. simpl. rewrite Ha. reflexivity.
Qed.

Lemma transcribeChunks_none_present (o : SplitAudioDialogOptions)
    (name : string) (cs : number) (chunks : list (option Blob)) (index : Z)
    (merged : list string) (w : W) :
  Observe.present chunks = [] ->
  run h (transcribeChunks o name cs chunks index merged) w
  = (Ok (join (LF ++ LF) merged), w, []).
Proof.
  revert index. induction chunks as [|[chunk|] chunks IH]; intros index H.
  - reflexivity.
  - discriminate H.
  - rewrite transcribeChunks_hole. apply IH. exact H.
Qed.

(** X10.  If the split service succeeds with an array that holds no blob
    (the empty array in particular), the split path succeeds with the
    empty transcript and calls no provider. *)
Theorem split_without_chunks (blob : Blob) (o : SplitAudioDialogOptions)
    (name : string) (w w0 : W) (chunks : list (option Blob)) :
  let split :=
    SplitAudioBlob blob
      {| sp_maxMb := maxMb o; sp_bitrateKbps := bitrateKbps o;
         sp_minChunkSec := minChunkSec o; sp_safetyMb := safetyMb o |} in
  h _ split w = (Ok chunks, w0) ->
  Observe.present chunks = [] ->
  run h (transcribeSplitAudio blob o name) w
  = (Ok "", w0, [Called split (Ok chunks)]).
Proof.
  intros split Hsplit Hnone. rewrite run_transcribeSplitAudio. fold split.
  rewrite Hsplit. cbn [fst snd].
  rewrite (transcribeChunks_none_present _ _ _ _ _ _ _ Hnone). reflexivity.
Qed.

End Providers.

Lemma transcribeWithProvider_known_witness :
  result_of
    (run (Script.handler Script.happy)
       (transcribeWithProvider Script.chunk2 "Groq") 0%nat)
  = Ok "two".
Proof.
  destruct (transcribeWithProvider_known (Script.handler Script.happy)
              Script.chunk2 "Groq" groq 0%nat eq_refl) as [opts H].
  rewrite H. reflexivity.
Defined.

Lemma transcribeWithProvider_unknown_witness :
  run (Script.handler Script.happy)
    (transcribeWithProvider Script.chunk2 "openai") 0%nat
  = (Err {| title := "⚠️ No transcription service selected";
            description :=
              Some "Please select a transcription service in settings.";
            serviceError := None |}, 0%nat, []).
Proof.
  apply (transcribeWithProvider_unknown (Script.handler Script.happy)
           Script.chunk2 "openai" 0%nat).
  reflexivity.
Defined.

Lemma split_sends_each_chunk_once_witness :
  Observe.audios_sent
    (trace_of
       (run (Script.handler Script.happy)
          (transcribeSplitAudio Script.big Script.defaults "OpenAI") 0%nat))
  = [Script.chunk1; Script.chunk2; Script.chunk3].
Proof.
  assert (Hex : exists t,
             answered (Script.handler Script.happy) "OpenAI" 1%nat
               [Some Script.chunk1; Some Script.chunk2; Some Script.chunk3]
               [Some (" one " ++ LF); Some "two"; Some "  three"] 7%nat t).
  { eexists.
    eapply answered_chunk; [reflexivity|].
    eapply answered_chunk; [reflexivity|].
    eapply answered_chunk; [reflexivity|].
    apply answered_nil. }
  destruct Hex as [t Hans].
  destruct (split_sends_each_chunk_once (Script.handler Script.happy)
              Script.big Script.defaults "OpenAI" 0%nat 1%nat 7%nat
              _ _ t eq_refl Hans) as [H _].
  exact H.
Defined.

Lemma split_without_chunks_witness :
  run (Script.handler (Script.with_split Script.happy (Ok [None; None])))
    (transcribeSplitAudio Script.big Script.defaults "OpenAI") 0%nat
  = (Ok "", 1%nat,
     [Called (SplitAudioBlob Script.big
                {| sp_maxMb := num 25; sp_bitrateKbps := num 128;
                   sp_minChunkSec := num 10; sp_safetyMb := Fin (1 # 2) |})
        (Ok [None; None])]).
Proof.
  apply (split_without_chunks
           (Script.handler (Script.with_split Script.happy (Ok [None; None])))
           Script.big Script.defaults "OpenAI" 0%nat 1%nat [None; None]);
    reflexivity.
Defined.

(* ================================================================== *)
(** ** More on [transcribeBlob] *)
(* ================================================================== *)

Lemma emits_weaken {A : Type} (P Q : forall X : Type, Eff X -> bool)
    (p : Prog A) :
  (forall X (e : Eff X), P X e = true -> Q X e = true) ->
  emits P p -> emits Q p.
Proof.
  intros HPQ. induction p as [a | X e k IH]; simpl; [trivial|].
  intros [He Hk]. split; [apply HPQ; exact He | intros x; apply IH; apply Hk].
Qed.

Lemma emits_routeTranscription (svc : string) (blob a : Blob) :
  emits Observe.is_route_side (routeTranscription svc blob a).
Proof.
  assert (Hside : forall X (e : Eff X),
             is_provider_side X e = true -> Observe.is_route_side X e = true).
  { intros X e. destruct e; simpl; intros H; try discriminate H; reflexivity. }
  unfold routeTranscription.
  destruct (gt (size_of blob) (mul MAX_TRANSCRIPTION_FILE_MB MB_BYTES)).
  - simpl. split; [reflexivity|]. intros s. split; [reflexivity|].
    intros [o|]; [|exact I].
    unfold transcribeSplitAudio. simpl. split; [reflexivity|].
    intros [chunks|e]; [|exact I].
    apply (emits_weaken is_provider_side); [exact Hside|].
    apply emits_transcribeChunks.
  - apply (emits_weaken is_provider_side); [exact Hside|].
    apply emits_transcribeWithProvider.
Qed.

Lemma emits_compressStep_inner s svc blob :
  emits Observe.is_inner (compressStep s svc blob).
Proof.
  unfold compressStep. destruct (compressionEnabled s); [|exact I].
  simpl. split; [reflexivity|]. intros [c|e]; simpl; repeat split.
Qed.

Lemma emits_transcribeBlob (blob : Blob) :
  emits Observe.is_blob_side (transcribeBlob blob).
Proof.
  unfold transcribeBlob.
  apply emits_bind.
  { unfold announce. simpl. repeat split. }
  intros st. apply emits_bind.
  { unfold compressStep. destruct (compressionEnabled (fst st)); [|exact I].
    simpl. split; [reflexivity|]. intros [c|e]; simpl; repeat split. }
  intros a. apply emits_bind.
  { apply (emits_weaken Observe.is_route_side);
      [|apply emits_routeTranscription].
    intros X e. destruct e; simpl; intros H; try discriminate H; reflexivity. }
  intros r. apply emits_bind.
  { unfold logResult. simpl. split; [reflexivity|].
    intros now. destruct r; simpl; repeat split. }
  intros _. exact I.
Qed.

Lemma filter_excluded (P : forall X : Type, Eff X -> bool)
    (Q : Event -> bool) (t : list Event) :
  (forall ev, event_sat P ev = true -> Q ev = false) ->
  forallb (event_sat P) t = true -> filter Q t = [].
Proof.
  intros HPQ. induction t as [|ev t IH]; simpl; [reflexivity|].
  intros H. apply andb_true_iff in H. destruct H as [H1 H2].
  rewrite (HPQ ev H1). apply IH. exact H2.
Qed.

Section TranscribeBlobMore.

Context {W : Type} (h : Handler W).

Lemma run_announce (w : W) :
  let s := fst (h _ ReadSettings w) in
  let w1 := snd (h _ ReadSettings w) in
  let startTime := fst (h _ DateNow w1) in
  let w2 := snd (h _ DateNow w1) in
  let requested :=
    LogEvent (transcription_requested (selectedTranscriptionService s)) in
  run h announce w
  = ((s, startTime), snd (h _ requested w2),
     [Called ReadSettings s; Called DateNow startTime; Called requested tt]).
Proof.
  intros s w1 startTime w2 requested. unfold announce. simpl.
  fold s. fold w1. fold startTime. fold w2. fold requested.
  destruct (fst (h unit requested w2)). reflexivity.
Qed.

Lemma run_logResult (svc : string) (startTime : Z)
    (r : Result string WhisperingError) (w : W) :
  let now := fst (h _ DateNow w) in
  let closing := LogEvent (Observe.outcome_event svc (now - startTime) r) in
  run h (logResult svc startTime r) w
  = (tt, snd (h _ closing (snd (h _ DateNow w))),
     [Called DateNow now; Called closing tt]).
Proof.
  intros now closing. unfold logResult. rewrite run_bind, run_call.
  cbn [result_of world_of trace_of fst snd]. fold now.
  subst closing. destruct r as [text|e]; cbn [Observe.outcome_event];
    rewrite run_call; cbn [fst snd app];
    match goal with
    | |- context [Called ?e (fst (h unit ?e ?w'))] =>
        destruct (fst (h unit e w'))
    end; reflexivity.
Qed.

(** X11.  Every run of [transcribeBlob] is framed by its two lifecycle
    events: it starts by reading the settings and the clock and logging
    [transcription_requested] for the selected service, and it ends by
    reading the clock and logging exactly one closing event that matches
    the result returned, [transcription_failed] with the error's title
    and description or [transcription_completed] with the elapsed time.
    No lifecycle event is logged in between. *)
Theorem transcribeBlob_lifecycle (blob : Blob) (w : W) :
  let out := run h (transcribeBlob blob) w in
  let s := fst (h _ ReadSettings w) in
  let svc := selectedTranscriptionService s in
  exists (startTime now : Z) (mid : list Event),
    trace_of out
    = (Called ReadSettings s
         :: Called DateNow startTime
         :: Called (LogEvent (transcription_requested svc)) tt
         :: mid
         ++ [Called DateNow now;
             Called (LogEvent
                       (Observe.outcome_event svc (now - startTime)
                          (result_of out))) tt])%list
    /\ existsb Observe.is_lifecycle_log mid = false.
Proof.
  intros out s svc. subst out. rewrite run_transcribeBlob.
  rewrite (run_announce w). fold s. fold svc.
  cbn [result_of world_of trace_of fst snd]. fold svc.
  set (w3 := snd (h unit (LogEvent (transcription_requested svc))
                    (snd (h Z DateNow (snd (h Settings ReadSettings w)))))).
  set (startTime := fst (h Z DateNow (snd (h Settings ReadSettings w)))).
  set (o1 := run h (compressStep s svc blob) w3).
  set (o2 := run h (routeTranscription svc blob (result_of o1)) (world_of o1)).
  rewrite (run_logResult svc startTime (result_of o2) (world_of o2)).
  cbn [trace_of snd]. fold (@trace_of W).
  exists startTime, (fst (h Z DateNow (world_of o2))),
    (trace_of o1 ++ trace_of o2)%list.
  split.
  - simpl. rewrite <- app_assoc. reflexivity.
  - rewrite existsb_app.
    assert (Hin : forall ev, event_sat Observe.is_inner ev = true ->
                             Observe.is_lifecycle_log ev = false).
    { intros [X e x]. destruct e as [| |[]| | | | | | | |]; simpl;
        intros H; try discriminate H; reflexivity. }
    assert (H1 : existsb Observe.is_lifecycle_log (trace_of o1) = false).
    { apply (existsb_excluded Observe.is_inner _ _ Hin).
      apply emits_trace. apply emits_compressStep_inner. }
    assert (H2 : existsb Observe.is_lifecycle_log (trace_of o2) = false).
    { apply (existsb_excluded Observe.is_inner _ _ Hin).
      apply emits_trace.
      apply (emits_weaken Observe.is_route_side);
        [|apply emits_routeTranscription].
      intros X e. destruct e; simpl; intros H; try discriminate H;
        reflexivity. }
    rewrite H1, H2. reflexivity.
Qed.

(** X12.  The compression service is called exactly when compression is
    enabled in the settings read at the start, then once, on the original
    blob and with the compression options of those settings. *)
Theorem compression_called_once (blob : Blob) (w : W) :
  let s := fst (h _ ReadSettings w) in
  let w3 := world_of (run h announce w) in
  let compression := CompressAudioBlob blob (compressionOptions s) in
  filter is_compress (trace_of (run h (transcribeBlob blob) w))
  = if compressionEnabled s
    then [Called compression (fst (h _ compression w3))]
    else [].
Proof.
  intros s w3 compression. subst w3 compression.
  rewrite run_transcribeBlob, (run_announce w). fold s.
  cbn [result_of world_of trace_of fst snd].
  set (svc := selectedTranscriptionService s).
  set (w3 := snd (h unit (LogEvent (transcription_requested svc))
                    (snd (h Z DateNow (snd (h Settings ReadSettings w)))))).
  set (startTime := fst (h Z DateNow (snd (h Settings ReadSettings w)))).
  set (o1 := run h (compressStep s svc blob) w3).
  set (o2 := run h (routeTranscription svc blob (result_of o1)) (world_of o1)).
  rewrite (run_logResult svc startTime (result_of o2) (world_of o2)).
  cbn [trace_of snd]. fold (@trace_of W).
  assert (H2 : filter is_compress (trace_of o2) = []).
  { apply (filter_excluded Observe.is_route_side).
    - intros [X e x]. destruct e; simpl; intros H; try discriminate H;
        reflexivity.
    - apply emits_trace. apply emits_routeTranscription. }
  rewrite !filter_app, H2. cbn [filter is_compress app].
  rewrite app_nil_r. subst o1. unfold compressStep.
  destruct (compressionEnabled s); [|reflexivity].
  rewrite run_bind, run_call.
  cbn [result_of world_of trace_of fst snd app filter is_compress].
  f_equal.
  destruct (fst (h _ (CompressAudioBlob blob (compressionOptions s)) w3))
    as [c|e]; rewrite !run_bind, !run_call; reflexivity.
Qed.

(** X13.  When compression is enabled and succeeds, [transcribeBlob] tells
    the user and the analytics the percentage saved and goes on with the
    compressed blob, whatever its size: for an original at or below the
    threshold the selected provider receives the compressed blob. *)
Theorem compression_success_used (blob compressedBlob : Blob) (w w1 w2 : W)
    (s : Settings) (startTime : Z) (t0 : list Event) :
  let svc := selectedTranscriptionService s in
  let compression := CompressAudioBlob blob (compressionOptions s) in
  let ratio := Observe.compressionRatio (size blob) (size compressedBlob) in
  let info :=
    NotifyInfo
      {| n_title := "Audio compressed";
         n_description := "Reduced file size by " ++ String_ ratio ++ "%";
         n_action := None |} in
  let logged :=
    LogEvent
      (compression_completed svc (size_of blob) (size_of compressedBlob)
         ratio) in
  let w4 := snd (h _ logged (snd (h _ info w2))) in
  run h announce w = ((s, startTime), w1, t0) ->
  compressionEnabled s = true ->
  h _ compression w1 = (Ok compressedBlob, w2) ->
  run h (compressStep s svc blob) w1
  = (compressedBlob, w4,
     [Called compression (Ok compressedBlob); Called info tt;
      Called logged tt])
  /\ result_of (run h (transcribeBlob blob) w)
     = result_of (run h (routeTranscription svc blob compressedBlob) w4)
  /\ ((size blob <= split_threshold)%N ->
      result_of (run h (transcribeBlob blob) w)
      = result_of (run h (transcribeWithProvider compressedBlob svc) w4)).
Proof.
  intros svc compression ratio info logged w4 Hann Hen Hok.
  assert (Hstep : run h (compressStep s svc blob) w1
                  = (compressedBlob, w4,
                     [Called compression (Ok compressedBlob); Called info tt;
                      Called logged tt])).
  { unfold compressStep. rewrite Hen. rewrite run_bind, run_call.
    fold compression. rewrite Hok.
    cbn [result_of world_of trace_of fst snd].
    change (Math_round
              (mul (sub (num 1) (div (size_of compressedBlob) (size_of blob)))
                 (num 100))) with ratio.
    rewrite !run_bind, !run_call. fold info. fold logged.
    cbn [result_of world_of trace_of fst snd run app].
    destruct (fst (h unit info w2)).
    destruct (fst (h unit logged (snd (h unit info w2)))).
    reflexivity. }
  split; [exact Hstep|].
  assert (Hres : result_of (run h (transcribeBlob blob) w)
                 = result_of
                     (run h (routeTranscription svc blob compressedBlob) w4)).
  { rewrite run_transcribeBlob. rewrite Hann.
    cbn [result_of world_of trace_of fst snd]. fold svc. rewrite Hstep.
    reflexivity. }
  split; [exact Hres|].
  intros Hsmall. rewrite Hres.
  rewrite (routeTranscription_direct svc blob compressedBlob Hsmall).
  reflexivity.
Qed.

(** X14.  The work that [transcribeRecordings] does for one recording never
    writes to the database: it fetches the audio and, if that succeeds,
    returns the result of [transcribeBlob] on it; if the fetch fails it
    returns the error [Failed to fetch audio] and makes no other call. *)
Theorem transcribeRecordings_each_no_write (recording : Recording) (w : W) :
  let out := run h (transcribeRecordings_each recording) w in
  let fetch := GetAudioBlob (id recording) in
  existsb Observe.is_db_update (trace_of out) = false
  /\ (forall audioBlob w1,
        h _ fetch w = (Ok audioBlob, w1) ->
        out = (result_of (run h (transcribeBlob audioBlob) w1),
               world_of (run h (transcribeBlob audioBlob) w1),
               Called fetch (Ok audioBlob)
                 :: trace_of (run h (transcribeBlob audioBlob) w1)))
  /\ (forall getAudioBlobError w1,
        h _ fetch w = (Err getAudioBlobError, w1) ->
        out = (Err {| title := "⚠️ Failed to fetch audio";
                      description :=
                        Some ("Unable to load audio for recording: "
                                ++ message getAudioBlobError);
                      serviceError := None |},
               w1, [Called fetch (Err getAudioBlobError)])).
Proof.
  intros out fetch. subst out. unfold transcribeRecordings_each.
  rewrite run_bind, run_call. fold fetch.
  cbn [result_of world_of trace_of fst snd app].
  split; [|split].
  - cbn [existsb Observe.is_db_update orb].
    destruct (fst (h _ fetch w)) as [audioBlob|e]; [|reflexivity].
    apply (existsb_excluded Observe.is_blob_side).
    + intros [X e x]. destruct e; simpl; intros H; try discriminate H;
        reflexivity.
    + apply emits_trace. apply emits_transcribeBlob.
  - intros audioBlob w1 Hf. rewrite Hf. reflexivity.
  - intros e w1 Hf. rewrite Hf. reflexivity.
Qed.

End TranscribeBlobMore.

Lemma compression_success_used_witness :
  result_of
    (run (Script.handler
            (Script.with_compress Script.happy (Ok Script.chunk3)))
       (transcribeBlob Script.small) 0%nat)
  = Ok "  three"
  /\ Observe.audios_sent
       (trace_of
          (run (Script.handler
                  (Script.with_compress Script.happy (Ok Script.chunk3)))
             (transcribeBlob Script.small) 0%nat))
     = [Script.chunk3].
Proof.
  destruct (compression_success_used
              (Script.handler
                 (Script.with_compress Script.happy (Ok Script.chunk3)))
              Script.small Script.chunk3 0%nat 3%nat 4%nat
              (Script.settings "OpenAI" true) 1%Z _ eq_refl eq_refl eq_refl)
    as (_ & _ & H).
  split; [|reflexivity].
  rewrite H; [reflexivity | discriminate].
Defined.

(* ================================================================== *)
(** ** A cancelled dialog, seen from [transcribeRecording] *)
(* ================================================================== *)

Section CancelledRecording.

Context {W : Type} (h : Handler W).

(** What a run of [transcribeBlob] shows when the dialog was opened and
    not confirmed. *)
Lemma transcribeBlob_cancelled (blob : Blob) (w : W) :
  let out := run h (transcribeBlob blob) w in
  dialog_opened (trace_of out) = true ->
  dialog_confirmed (trace_of out) = false ->
  result_of out
  = Err {| title := "Split canceled";
           description :=
             Some "Transcription was canceled because the audio file exceeds 25MB.";
           serviceError := None |}
  /\ provider_called (trace_of out) = false.
Proof.
  intros out. subst out. rewrite run_transcribeBlob.
  set (o0 := run h announce w).
  set (svc := selectedTranscriptionService (fst (result_of o0))).
  set (o1 := run h (compressStep (fst (result_of o0)) svc blob) (world_of o0)).
  set (o2 := run h (routeTranscription svc blob (result_of o1)) (world_of o1)).
  set (o3 := run h (logResult svc (snd (result_of o0)) (result_of o2))
               (world_of o2)).
  destruct (plain_no_dialog _ (emits_trace h is_plain _ w emits_announce))
    as (A1 & A2 & _ & A4). fold o0 in A1, A2, A4.
  destruct (plain_no_dialog _
              (emits_trace h is_plain _ (world_of o0)
                 (emits_compressStep (fst (result_of o0)) svc blob)))
    as (B1 & B2 & _ & B4). fold o1 in B1, B2, B4.
  destruct (plain_no_dialog _
              (emits_trace h is_plain _ (world_of o2)
                 (emits_logResult svc (snd (result_of o0)) (result_of o2))))
    as (C1 & C2 & _ & C4). fold o3 in C1, C2, C4.
  destruct (routeTranscription_observed h svc blob (result_of o1) (world_of o1))
    as (_ & _ & R3). fold o2 in R3.
  cbn [result_of trace_of fst snd].
  unfold dialog_opened, dialog_confirmed, provider_called in *.
  rewrite !existsb_app, A1, A2, A4, B1, B2, B4, C1, C2, C4.
  rewrite !orb_false_r. cbn [orb]. exact R3.
Qed.

Lemma run_transcribeRecording_fetched (recording : Recording) (w w1 : W)
    (audioBlob : Blob) :
  let first := DbRecordingsUpdate (with_status recording TRANSCRIBING) in
  let title1 :=
    "⚠️ Unable to set recording transcription status to transcribing" in
  let note1 := "Continuing with the transcription process..." in
  let title2 := "⚠️ Unable to update recording after transcription" in
  let u1 := h _ first w1 in
  let o1 := run h (warnIfFailed (fst u1) title1 note1) (snd u1) in
  let o2 := run h (transcribeBlob audioBlob) (world_of o1) in
  let last := DbRecordingsUpdate (Spec.final_record recording (result_of o2)) in
  let u2 := h _ last (world_of o2) in
  h _ (GetAudioBlob (id recording)) w = (Ok audioBlob, w1) ->
  result_of (run h (transcribeRecording recording) w) = result_of o2
  /\ trace_of (run h (transcribeRecording recording) w)
     = (Called (GetAudioBlob (id recording)) (Ok audioBlob)
          :: Called first (fst u1)
          :: Spec.warning_calls (fst u1) title1 note1
          ++ trace_of o2
          ++ Called last (fst u2)
          :: Spec.warning_calls (fst u2) title2
               (Spec.final_warning (result_of o2)))%list.
Proof.
  intros first title1 note1 title2 u1 o1 o2 last u2 Hget.
  unfold transcribeRecording. rewrite run_bind, run_call, Hget.
  cbn [result_of world_of trace_of fst snd].
  rewrite run_bind, run_call. fold first. fold u1.
  cbn [result_of world_of trace_of fst snd].
  rewrite run_bind. fold title1. fold note1. fold o1.
  rewrite run_bind. fold o2.
  destruct (run_warnIfFailed h (fst u1) title1 note1 (snd u1)) as [_ Ht1].
  fold o1 in Ht1. rewrite Ht1.
  destruct (run_warnIfFailed h (fst u2) title2
              (Spec.final_warning (result_of o2)) (snd u2)) as [_ Ht3].
  rewrite <- Ht3.
  subst u2 last. destruct (result_of o2) as [text|e];
    cbn [Spec.final_record Spec.final_warning];
    rewrite run_bind, run_call; cbn [result_of world_of trace_of fst snd];
    rewrite run_bind; cbn [result_of world_of trace_of fst snd run];
    rewrite app_nil_r; split; reflexivity.
Qed.

(** X15.  When the split dialog is opened for a recording and cancelled,
    [transcribeRecording] returns the error [Split canceled], calls no
    provider, and writes the recording twice, its id and text unchanged:
    with status [TRANSCRIBING] before the transcription and with status
    [FAILED] after it. *)
Theorem cancelled_split_marks_failed (recording : Recording) (w w1 : W)
    (audioBlob : Blob) :
  let out := run h (transcribeRecording recording) w in
  h _ (GetAudioBlob (id recording)) w = (Ok audioBlob, w1) ->
  dialog_opened (trace_of out) = true ->
  dialog_confirmed (trace_of out) = false ->
  result_of out
  = Err {| title := "Split canceled";
           description :=
             Some "Transcription was canceled because the audio file exceeds 25MB.";
           serviceError := None |}
  /\ provider_called (trace_of out) = false
  /\ exists u1 u2 : Result unit ServiceError,
       filter Observe.is_db_update (trace_of out)
       = [Called (DbRecordingsUpdate
                    {| id := id recording;
                       transcribedText := transcribedText recording;
                       transcriptionStatus := TRANSCRIBING |}) u1;
          Called (DbRecordingsUpdate
                    {| id := id recording;
                       transcribedText := transcribedText recording;
                       transcriptionStatus := FAILED |}) u2].
Proof.
  intros out Hget. subst out.
  destruct (run_transcribeRecording_fetched recording w w1 audioBlob Hget)
    as [Hres Htrace].
  rewrite Hres, Htrace. clear Hres Htrace.
  set (first := DbRecordingsUpdate (with_status recording TRANSCRIBING)).
  set (u1 := h _ first w1).
  set (wa := world_of (run h (warnIfFailed (fst u1)
             "⚠️ Unable to set recording transcription status to transcribing"
             "Continuing with the transcription process...") (snd u1))).
  set (o2 := run h (transcribeBlob audioBlob) wa).
  set (last := DbRecordingsUpdate (Spec.final_record recording (result_of o2))).
  set (u2 := h _ last (world_of o2)).
  change (h (Result unit ServiceError) first w1) with u1.
  assert (Hwarn : forall r t d,
             dialog_opened (Spec.warning_calls r t d) = false
             /\ dialog_confirmed (Spec.warning_calls r t d) = false
             /\ provider_called (Spec.warning_calls r t d) = false
             /\ filter Observe.is_db_update (Spec.warning_calls r t d) = []).
  { intros [u|e] t d; repeat split. }
  assert (Hblob : filter Observe.is_db_update (trace_of o2) = []).
  { apply (filter_excluded Observe.is_blob_side).
    - intros [X e x]. destruct e; simpl; intros H; try discriminate H;
        reflexivity.
    - apply emits_trace. apply emits_transcribeBlob. }
  subst first last. intros Hopen Hconf.
  assert (Hopen2 : dialog_opened (trace_of o2) = true).
  { revert Hopen. unfold dialog_opened. cbn [existsb is_dialog_open orb].
    rewrite !existsb_app. cbn [existsb is_dialog_open orb].
    destruct (Hwarn (fst u1)
                "⚠️ Unable to set recording transcription status to transcribing"
                "Continuing with the transcription process...") as (E1 & _).
    destruct (Hwarn (fst u2)
                "⚠️ Unable to update recording after transcription"
                (Spec.final_warning (result_of o2))) as (E2 & _).
    unfold dialog_opened in E1, E2. rewrite E1, E2.
    rewrite orb_false_r. cbn [orb]. trivial. }
  assert (Hconf2 : dialog_confirmed (trace_of o2) = false).
  { revert Hconf. unfold dialog_confirmed.
    cbn [existsb is_dialog_confirmed orb].
    rewrite !existsb_app. cbn [existsb is_dialog_confirmed orb].
    intros H. apply orb_false_iff in H. destruct H as [_ H].
    apply orb_false_iff in H. destruct H as [H _]. exact H. }
  destruct (transcribeBlob_cancelled audioBlob wa Hopen2 Hconf2) as [Hr Hp].
  fold o2 in Hr, Hp.
  split; [exact Hr|]. split.
  - unfold provider_called in *. cbn [existsb is_provider_call orb].
    rewrite !existsb_app. cbn [existsb is_provider_call orb]. rewrite Hp.
    destruct (Hwarn (fst u1)
                "⚠️ Unable to set recording transcription status to transcribing"
                "Continuing with the transcription process...")
      as (_ & _ & E1 & _).
    destruct (Hwarn (fst u2)
                "⚠️ Unable to update recording after transcription"
                (Spec.final_warning (result_of o2))) as (_ & _ & E2 & _).
    unfold provider_called in E1, E2. rewrite E1, E2. reflexivity.
  - exists (fst u1), (fst u2).
    cbn [filter Observe.is_db_update]. rewrite !filter_app.
    cbn [filter Observe.is_db_update].
    destruct (Hwarn (fst u1)
                "⚠️ Unable to set recording transcription status to transcribing"
                "Continuing with the transcription process...")
      as (_ & _ & _ & E1).
    destruct (Hwarn (fst u2)
                "⚠️ Unable to update recording after transcription"
                (Spec.final_warning (result_of o2))) as (_ & _ & _ & E2).
    rewrite E1, E2, Hblob. cbn [app]. rewrite Hr. reflexivity.
Qed.

End CancelledRecording.

Lemma cancelled_split_marks_failed_witness :
  let cancelled := Script.handler (Script.with_dialog Script.happy None) in
  result_of (run cancelled (transcribeRecording Script.recording) 0%nat)
  = Err {| title := "Split canceled";
           description :=
             Some "Transcription was canceled because the audio file exceeds 25MB.";
           serviceError := None |}
  /\ provider_called
       (trace_of (run cancelled (transcribeRecording Script.recording) 0%nat))
     = false
  /\ filter Observe.is_db_update
       (trace_of (run cancelled (transcribeRecording Script.recording) 0%nat))
     = [Called (DbRecordingsUpdate
                  {| id := "rec-1"; transcribedText := "";
                     transcriptionStatus := TRANSCRIBING |}) (Ok tt);
        Called (DbRecordingsUpdate
                  {| id := "rec-1"; transcribedText := "";
                     transcriptionStatus := FAILED |}) (Ok tt)].
Proof.
  intros cancelled.
  destruct (cancelled_split_marks_failed cancelled Script.recording 0%nat
              1%nat Script.big eq_refl eq_refl eq_refl)
    as (Hresult & Hprovider & _).
  split; [exact Hresult|]. split; [exact Hprovider|].
  vm_compute. reflexivity.
Defined.

(* ================================================================== *)
(** ** The inputs of the dialog *)
(* ================================================================== *)

Module SplitAudioDialogViewFacts.
Import SplitAudioDialog SplitAudioDialogFacts SplitAudioDialogView.

Section Inputs.

Variable Number_ : string -> number.

Lemma oninput_step (key : NumberKey) (value : string) (s : Store) :
  exists next : PartialOptions,
    snd (oninput Number_ key value s) = step s (OpUpdateOptions next).
Proof. eexists. reflexivity. Qed.

(** One input event: the number handed to the settings is the option now
    shown, a text that is no finite number changes no option, and finite
    options stay finite. *)
Lemma oninput_finite (key : NumberKey) (value : string) (s : Store) :
  let s' := snd (oninput Number_ key value s) in
  fst (oninput Number_ key value s)
  = updateKey key (shown key (options (fst s')))
  /\ (Number_isFinite (Number_ value) = false ->
      options (fst s') = options (fst s))
  /\ (finite_options (options (fst s)) = true ->
      finite_options (options (fst s')) = true)
  /\ resolvePromise (fst s') = resolvePromise (fst s)
  /\ snd s' = snd s.
Proof.
  destruct s as [[io bl bs [a b m sf tags] rp] ps].
  unfold oninput, updateNumberSetting, finite_options.
  set (v := Number_ value).
  destruct (Number_isFinite v) eqn:Ef; destruct key; cbn;
    (split; [reflexivity|]);
    (split; [intros H; try discriminate H; reflexivity|]);
    (split; [|split; reflexivity]);
    intros H;
    repeat match goal with
           | H : _ && _ = true |- _ =>
               apply andb_true_iff in H; destruct H
           end;
    repeat (apply andb_true_iff; split); assumption.
Qed.

Lemma typed_frame (events : list (NumberKey * string)) (s : Store) :
  reachable s ->
  reachable (fold_left (typed Number_) events s)
  /\ resolvePromise (fst (fold_left (typed Number_) events s))
     = resolvePromise (fst s)
  /\ (finite_options (options (fst s)) = true ->
      finite_options (options (fst (fold_left (typed Number_) events s)))
      = true).
Proof.
  revert s. induction events as [|[key value] events IH]; intros s Hs; simpl.
  - repeat split; trivial.
  - destruct (oninput_step key value s) as [next Hstep].
    destruct (oninput_finite key value s) as (_ & _ & Hfin & Hres & _).
    unfold typed at 2 4 6. cbn [fst snd].
    destruct (IH (snd (oninput Number_ key value s))) as (A & B & C).
    { rewrite Hstep. apply reachable_step. exact Hs. }
    split; [exact A|]. split; [rewrite B; exact Hres|].
    intros H. apply C. apply Hfin. exact H.
Qed.

(** X16.  Whatever is typed into the four number inputs of the dialog, a
    request opened with finite options is confirmed with finite options:
    a text that [Number] does not turn into a finite number leaves the
    option as it was, so neither [NaN] nor an infinity enters the options
    this way. *)
Theorem inputs_keep_options_finite (s : Store)
    (request : SplitAudioDialogRequest)
    (events : list (NumberKey * string)) :
  reachable s ->
  finite_options (req_options request) = true ->
  let p := fst (open request s) in
  let edited := fold_left (typed Number_) events (snd (open request s)) in
  exists o : SplitAudioDialogOptions,
    value_of (snd (confirm edited)) p = Some (Some o)
    /\ o = options (fst edited)
    /\ finite_options o = true.
Proof.
  intros Hreach Hfin p edited.
  pose proof (reachable_step s (OpOpen request) Hreach) as Hopen.
  simpl in Hopen.
  destruct (typed_frame events _ Hopen) as (Hed & Hres & Hkeep).
  fold edited in Hed, Hres, Hkeep.
  assert (Hp : resolvePromise (fst edited) = Some p).
  { rewrite Hres. subst p. destruct s as [st ps]. reflexivity. }
  pose proof (inv_unsettled edited p (reachable_inv _ Hed) Hp) as Hun.
  exists (options (fst edited)). split; [|split; [reflexivity|]].
  - destruct edited as [st ps]. simpl in *. unfold confirm. rewrite Hp.
    simpl. rewrite value_of_resolve, Hun, Nat.eqb_refl. reflexivity.
  - apply Hkeep. destruct s as [st ps]. exact Hfin.
Qed.

End Inputs.

Lemma inputs_keep_options_finite_witness :
  let Number_ := fun text : string => if text =? "64" then num 64 else NaN in
  let request :=
    {| req_blob := Script.big; req_blobSizeMb := num 30;
       req_options := Script.defaults |} in
  value_of
    (snd (confirm
            (fold_left (typed Number_)
               [(transcription_splitBitrateKbps, "64");
                (transcription_splitMaxMB, "abc")]
               (snd (open request init))))) 0%nat
  = Some (Some {| maxMb := num 25; bitrateKbps := num 64;
                  minChunkSec := num 10; safetyMb := Fin (1 # 2);
                  addSplitTags := true |}).
Proof.
  intros Number_ request.
  assert (Hreach : reachable init) by (exists []; reflexivity).
  destruct (inputs_keep_options_finite Number_ init request
              [(transcription_splitBitrateKbps, "64");
               (transcription_splitMaxMB, "abc")] Hreach eq_refl)
    as (o & Hv & Ho & _).
  rewrite Ho in Hv. exact Hv.
Defined.

End SplitAudioDialogViewFacts.
